(** * datalab_solutions.inception._util : a shallow embedding

    The module under study is glue code: it resolves the active
    preprocessing output directory through a "latest" marker file, lists
    shard files, builds a TensorFlow input pipeline, aggregates loss and
    accuracy in graph variables, and patches command line argument lists.

    Everything the module delegates to (the file layer of google.cloud.ml,
    tensorflow's file_io, multiprocessing, the TensorFlow graph builders and
    the float32 arithmetic of the runtime) is taken as a parameter; the code
    of [_util.py] itself is transcribed function by function. *)

From Stdlib Require Import ZArith QArith Lia Ascii String.
From stdpp Require Import base list gmap strings.

Close Scope Q_scope.
Local Open Scope string_scope.

(** ** Python byte strings

    The module targets Python 2: [str] is a byte string, modelled by
    [string] (a list of 8-bit [ascii]). *)
Module PyStr.

(** The double quote character, code 34. *)
Definition dquote : string :=
  Eval cbv in String (ascii_of_nat 34) EmptyString.

(** The newline character, code 10 (the Python literal '\n'). *)
Definition newline : ascii := Eval cbv in ascii_of_nat 10.

Definition comma : ascii := Eval cbv in ascii_of_nat 44.

Definition slash : ascii := Eval cbv in ascii_of_nat 47.

(** [str.isspace] on one byte in the C locale: tab, newline, vertical tab,
    form feed, carriage return and space. *)
Definition is_space (c : ascii) : bool :=
  let n := nat_of_ascii c in
  ((9 <=? n)%nat && (n <=? 13)%nat) || (n =? 32)%nat.

Definition is_empty (s : string) : bool :=
  match s with
  | EmptyString => true
  | String _ _ => false
  end.

(** [s.rstrip()]: drop the longest suffix made of whitespace. *)
Fixpoint rstrip (s : string) : string :=
  match s with
  | EmptyString => EmptyString
  | String c t =>
      let t' := rstrip t in
      if is_space c && is_empty t' then EmptyString else String c t'
  end.

(** [s.split(sep)] for a one character separator. The result is never
    empty: the empty string splits into one empty piece. *)
Fixpoint split (sep : ascii) (s : string) : list string :=
  match s with
  | EmptyString => [EmptyString]
  | String c t =>
      if Ascii.eqb c sep then EmptyString :: split sep t
      else match split sep t with
           | piece :: rest => String c piece :: rest
           | [] => [String c EmptyString]
           end
  end.

(** [sep.join(pieces)] for a one character separator. *)
Fixpoint join (sep : ascii) (pieces : list string) : string :=
  match pieces with
  | [] => EmptyString
  | [p] => p
  | p :: rest => p +:+ String sep (join sep rest)
  end.

Fixpoint contains_char (c : ascii) (s : string) : bool :=
  match s with
  | EmptyString => false
  | String d t => Ascii.eqb d c || contains_char c t
  end.

Fixpoint all_space (s : string) : bool :=
  match s with
  | EmptyString => true
  | String c t => is_space c && all_space t
  end.

(** [s.startswith('/')]. *)
Definition startswith_sep (s : string) : bool :=
  match s with
  | String c _ => Ascii.eqb c slash
  | EmptyString => false
  end.

(** [s.endswith('/')]. *)
Fixpoint endswith_sep (s : string) : bool :=
  match s with
  | EmptyString => false
  | String c EmptyString => Ascii.eqb c slash
  | String _ t => endswith_sep t
  end.

(** [os.path.join(a, b)] of posixpath, two arguments: an absolute [b]
    replaces [a]; otherwise [b] is appended, with a separator unless [a] is
    empty or already ends with one. *)
Definition path_join (a b : string) : string :=
  if startswith_sep b then b
  else if is_empty a || endswith_sep a then a +:+ b
  else a +:+ String slash b.

(** [fmt % arg] for a format holding "%s" directives and a single string
    argument: the first "%s" is replaced by [arg]. *)
Fixpoint percent_s (fmt arg : string) : string :=
  match fmt with
  | String "%" (String "s" rest) => arg +:+ rest
  | String c rest => String c (percent_s rest arg)
  | EmptyString => EmptyString
  end.

End PyStr.

(** ** Exceptions and results *)
Module Py.

(** What a call can raise: the [Exception] built by the module itself, or
    whatever an external layer (file system, object storage, runtime)
    raised, identified by a description. *)
Inductive exn : Type :=
| Exception (msg : string)
| External (err : string).

Inductive result (A : Type) : Type :=
| Ok (a : A)
| Raise (e : exn).

Arguments Ok {A} a.
Arguments Raise {A} e.

(** Outcome of an external call. *)
Inductive io (A : Type) : Type :=
| Done (a : A)
| Failed (err : string).

Arguments Done {A} a.
Arguments Failed {A} err.

Definition bind {A B : Type} (r : result A) (k : A -> result B) : result B :=
  match r with
  | Ok a => k a
  | Raise e => Raise e
  end.

Definition call {A : Type} (x : io A) : result A :=
  match x with
  | Done a => Ok a
  | Failed err => Raise (External err)
  end.

Definition raises_Exception {A : Type} (r : result A) : bool :=
  match r with
  | Raise (Exception _) => true
  | _ => false
  end.

End Py.

Import Py.

#[global] Instance result_ret : MRet result := @Ok.

#[global] Instance result_bind : MBind result :=
  fun A B k r => Py.bind r k.

(** ** The external layers

    [file_exists], [open_local_or_gcs] and [glob_files] come from
    google.cloud.ml.util._file, [get_matching_files] from tensorflow's
    file_io, [cpu_count] from multiprocessing. Opening a file for reading
    and reading it whole is one operation here. *)
Record Env : Type := {
  file_exists : string -> io bool;
  open_local_or_gcs_read : string -> io string;
  glob_files : string -> io (list string);
  get_matching_files : string -> io (list string);
  cpu_count : io Z
}.

(** ** Locating the preprocessed data *)
Module DataDir.

Import PyStr.

Definition latest_format : string :=
  ("Cannot find " +:+ dquote +:+ "latest" +:+ dquote +:+ " file in "
     +:+ dquote +:+ "%s" +:+ dquote +:+ ". ")
  +:+ "Please use a preprocessing output dir.".

Definition _get_latest_data_dir (env : Env) (input_dir : string)
  : result string :=
  let latest_file := path_join input_dir "latest" in
  found ← call (file_exists env latest_file);
  if negb found then
    Raise (Exception (percent_s latest_format input_dir))
  else
    content ← call (open_local_or_gcs_read env latest_file);
    let dir_name := rstrip content in
    Ok (path_join input_dir dir_name).

Definition get_train_eval_files (env : Env) (input_dir : string)
  : result (list string * list string) :=
  data_dir ← _get_latest_data_dir env input_dir;
  let train_pattern := path_join data_dir "train*.tfrecord.gz" in
  let eval_pattern := path_join data_dir "eval*.tfrecord.gz" in
  train_files ← call (glob_files env train_pattern);
  eval_files ← call (glob_files env eval_pattern);
  Ok (train_files, eval_files).

Definition get_labels (env : Env) (input_dir : string)
  : result (list string) :=
  data_dir ← _get_latest_data_dir env input_dir;
  let labels_file := path_join data_dir "labels" in
  content ← call (open_local_or_gcs_read env labels_file);
  let labels := split newline (rstrip content) in
  Ok labels.

End DataDir.

(** ** The input pipeline

    [read_examples] collects the files to read and then builds a TensorFlow
    graph through four builders of the framework. Like the file layer, the
    builders are external calls: they hand back objects of the framework's
    own types, or raise when they refuse their arguments. *)
Module Pipeline.

Import PyStr.

Inductive TFRecordCompressionType : Type := NONE | ZLIB | GZIP.

Record TFRecordOptions : Type := {
  compression_type : TFRecordCompressionType
}.

(** The builders used by [read_examples]:
    [tf.train.string_input_producer(string_tensor, num_epochs, shuffle)];
    [tf.TFRecordReader(options=options).read_up_to(queue, num_records)],
    which yields the pair of tensors [example_id, encoded_example];
    [tf.train.shuffle_batch(tensors, batch_size, capacity,
    min_after_dequeue, enqueue_many, num_threads)] and
    [tf.train.batch(tensors, batch_size, capacity, enqueue_many,
    num_threads)], which yield the batched tensors. *)
Record TensorFlow : Type := {
  Queue : Type;
  Tensor : Type;
  string_input_producer : list string -> option Z -> bool -> io Queue;
  read_up_to : TFRecordOptions -> Queue -> Z -> io (Tensor * Tensor);
  shuffle_batch :
    list Tensor -> Z -> Z -> Z -> bool -> Z -> io (list Tensor);
  batch : list Tensor -> Z -> Z -> bool -> Z -> io (list Tensor)
}.

(** A [for] loop over a list whose body updates a local state and may
    raise. *)
Fixpoint for_each {A S : Type} (xs : list A) (body : A -> S -> result S)
  (s : S) : result S :=
  match xs with
  | [] => Ok s
  | x :: rest => s' ← body x s; for_each rest body s'
  end.

(** Lines 76-79: the nested loops filling [files]. *)
Definition collect_files (env : Env) (input_files : list string)
  : result (list string) :=
  for_each input_files
    (fun e files =>
       for_each (split comma e)
         (fun path files =>
            matched ← call (get_matching_files env path);
            Ok (files ++ matched)%list)
         files)
    [].

(** [num_epochs or None]: the integer 0 and [None] are the falsy values. *)
Definition or_None (num_epochs : option Z) : option Z :=
  match num_epochs with
  | Some n => if (n =? 0)%Z then None else Some n
  | None => None
  end.

Definition read_examples (tf : TensorFlow) (env : Env)
  (input_files : list string) (batch_size : Z) (shuffle : bool)
  (num_epochs : option Z) : result (list (Tensor tf)) :=
  files ← collect_files env input_files;
  thread_count ← call (cpu_count env);
  let min_after_dequeue := 1000%Z in
  let queue_size_multiplier := (thread_count + 3)%Z in
  let num_epochs := or_None num_epochs in
  filename_queue ← call (string_input_producer tf files num_epochs shuffle);
  let options := {| compression_type := GZIP |} in
  '(example_id, encoded_example) ←
    call (read_up_to tf options filename_queue batch_size);
  if shuffle then
    let capacity := (min_after_dequeue + queue_size_multiplier * batch_size)%Z in
    call (shuffle_batch tf [example_id; encoded_example] batch_size capacity
            min_after_dequeue true thread_count)
  else
    let capacity := (queue_size_multiplier * batch_size)%Z in
    call (batch tf [example_id; encoded_example] batch_size capacity
            true thread_count).

End Pipeline.

(** ** Patching an argument list

    [args] is a Python list passed by reference and extended in place. The
    lists live in a store indexed by reference, so that every alias of [args]
    observes the extension. *)
Module Args.

Abbreviation ref := positive (only parsing).

Section WithValues.

Context {V : Type} `{EqDecision V}.

(** [x in l] on a list: some element equals [x]. *)
Fixpoint py_in (x : V) (l : list V) : bool :=
  match l with
  | [] => false
  | y :: rest => bool_decide (y = x) || py_in x rest
  end.

(** [l.extend(more)]. *)
Definition extend (l more : list V) : list V := (l ++ more)%list.

(** The function returns [None]; its effect is the new store. A reference
    always denotes a live list, so the last branch is never taken from
    Python. *)
Definition override_if_not_in_args (flag argument : V) (args : ref)
  (store : gmap positive (list V)) : gmap positive (list V) :=
  match store !! args with
  | Some l =>
      if negb (py_in flag l) then <[args := extend l [flag; argument]]> store
      else store
  | None => store
  end.

End WithValues.

End Args.

(** ** Metric aggregation

    The graph variables are created by [loss] and [accuracy] themselves, so
    the tensors they are given cannot read them: a tensor is a function of
    the run it is evaluated in. Counters are int32 and wrap around; the
    float32 operations and [tf.nn.in_top_k] belong to the runtime. *)
Module Metrics.

Class Runtime : Type := {
  float32 : Type;
  f_zero : float32;
  f_add : float32 -> float32 -> float32;
  f_div : float32 -> float32 -> float32;
  f_of_int32 : Z -> float32;
  Logits : Type;
  Labels : Type;
  in_top_k : Logits -> Labels -> Z -> list bool
}.

Definition wrap_int32 (z : Z) : Z :=
  ((z + 2 ^ 31) mod 2 ^ 32 - 2 ^ 31)%Z.

Definition int32_add (a b : Z) : Z := wrap_int32 (a + b).

(** [tf.cast(v, tf.int32)] on a boolean vector. *)
Definition cast_int32 (v : list bool) : list Z :=
  map (fun b : bool => if b then 1%Z else 0%Z) v.

(** [tf.reduce_sum] on an int32 vector. *)
Definition reduce_sum (v : list Z) : Z := foldl int32_add 0%Z v.

Definition logical_not (v : list bool) : list bool := map negb v.

(** [session.run(ops)] for update ops: each op of the list is applied once,
    all of them reading the tensors of the same run. *)
Definition run {Run Vars : Type} (ops : list (Run -> Vars -> Vars))
  (r : Run) (vars : Vars) : Vars :=
  foldl (fun v op => op r v) vars ops.

(** The variables after one [run] of [ops] per element of [runs]. *)
Definition run_all {Run Vars : Type} (ops : list (Run -> Vars -> Vars))
  (runs : list Run) (vars : Vars) : Vars :=
  foldl (fun v r => run ops r v) vars runs.

Section WithRuntime.

Context `{RT : Runtime} {Run : Type}.

Record LossVars : Type := {
  total_loss : float32;
  loss_count : Z
}.

(** Lines 130-131: [tf.Variable(0.0, False)] and [tf.Variable(0, False)]. *)
Definition loss_vars : LossVars :=
  {| total_loss := f_zero; loss_count := 0 |}.

Definition loss (loss_value : Run -> float32)
  : list (Run -> LossVars -> LossVars) * (LossVars -> float32) :=
  let total_loss_update := fun (r : Run) (v : LossVars) =>
    {| total_loss := f_add (total_loss v) (loss_value r);
       loss_count := loss_count v |} in
  let loss_count_update := fun (r : Run) (v : LossVars) =>
    {| total_loss := total_loss v;
       loss_count := int32_add (loss_count v) 1 |} in
  let loss_op := fun v : LossVars =>
    f_div (total_loss v) (f_of_int32 (loss_count v)) in
  ([total_loss_update; loss_count_update], loss_op).

Record AccuracyVars : Type := {
  correct_count : Z;
  incorrect_count : Z
}.

(** Lines 143-144: both counters are [tf.Variable(0, False)]. *)
Definition accuracy_vars : AccuracyVars :=
  {| correct_count := 0; incorrect_count := 0 |}.

Definition accuracy (logits : Run -> Logits) (labels : Run -> Labels)
  : list (Run -> AccuracyVars -> AccuracyVars) * (AccuracyVars -> float32) :=
  let is_correct := fun r : Run => in_top_k (logits r) (labels r) 1 in
  let correct := fun r : Run => reduce_sum (cast_int32 (is_correct r)) in
  let incorrect := fun r : Run =>
    reduce_sum (cast_int32 (logical_not (is_correct r))) in
  let correct_count_update := fun (r : Run) (v : AccuracyVars) =>
    {| correct_count := int32_add (correct_count v) (correct r);
       incorrect_count := incorrect_count v |} in
  let incorrect_count_update := fun (r : Run) (v : AccuracyVars) =>
    {| correct_count := correct_count v;
       incorrect_count := int32_add (incorrect_count v) (incorrect r) |} in
  let accuracy_op := fun v : AccuracyVars =>
    f_div (f_of_int32 (correct_count v))
          (f_of_int32 (int32_add (correct_count v) (incorrect_count v))) in
  ([correct_count_update; incorrect_count_update], accuracy_op).

End WithRuntime.

End Metrics.

(** ** Concrete surroundings used to exercise the definitions *)
Module Fixture.

Import PyStr.

Fixpoint assoc {A : Type} (table : list (string * A)) (key : string)
  : option A :=
  match table with
  | [] => None
  | (k, a) :: rest => if String.eqb k key then Some a else assoc rest key
  end.

Definition lines (ls : list string) : string :=
  foldr (fun l acc => l +:+ String newline acc) EmptyString ls.

(** A preprocessing output directory holding one version, [v1]. *)
Definition demo_files : list (string * string) :=
  [ ("/data/latest", lines ["v1"]);
    ("/data/v1/labels", lines ["daisy"; "rose"; "tulip"]) ].

Definition demo_globs : list (string * list string) :=
  [ ("/data/v1/train*.tfrecord.gz",
     ["/data/v1/train-0.tfrecord.gz"; "/data/v1/train-1.tfrecord.gz"]);
    ("/data/v1/eval*.tfrecord.gz", ["/data/v1/eval-0.tfrecord.gz"]) ].

Definition demo_env : Env := {|
  file_exists := fun p =>
    Done (match assoc demo_files p with Some _ => true | None => false end);
  open_local_or_gcs_read := fun p =>
    match assoc demo_files p with
    | Some content => Done content
    | None => Failed "IOError"
    end;
  glob_files := fun p => Done (default [] (assoc demo_globs p));
  get_matching_files := fun p => Done (default [] (assoc demo_globs p));
  cpu_count := Done 4%Z
|}.

(** One entry naming two patterns. *)
Definition demo_input_files : list string :=
  ["/data/v1/train*.tfrecord.gz,/data/v1/eval*.tfrecord.gz"].

Definition demo_matched : list string :=
  ["/data/v1/train-0.tfrecord.gz"; "/data/v1/train-1.tfrecord.gz";
   "/data/v1/eval-0.tfrecord.gz"].

(** A graph layer that records the calls made to it. It refuses an empty
    file list and an epoch count that is not positive (ValueError), a
    queue with no room above its floor (ZeroDivisionError) and a batch size
    beyond int32 (ValueError). *)
Record QueueNode : Type := {
  string_tensor : list string;
  num_epochs : option Z;
  shuffle : bool
}.

#[local] Unset Elimination Schemes.

Inductive TensorNode : Type :=
| ReadUpTo (options : Pipeline.TFRecordOptions) (queue : QueueNode)
           (num_records : Z) (output : nat)
| ShuffleBatch (tensors : list TensorNode)
               (batch_size capacity min_after_dequeue : Z)
               (enqueue_many : bool) (num_threads : Z) (output : nat)
| Batch (tensors : list TensorNode) (batch_size capacity : Z)
        (enqueue_many : bool) (num_threads : Z) (output : nat).

#[local] Set Elimination Schemes.

Definition outputs (tensors : list TensorNode) (node : nat -> TensorNode)
  : list TensorNode :=
  map node (seq 0 (length tensors)).

Definition recording_tf : Pipeline.TensorFlow := {|
  Pipeline.Queue := QueueNode;
  Pipeline.Tensor := TensorNode;
  Pipeline.string_input_producer := fun files epochs shuffle =>
    match files, epochs with
    | [], _ => Failed "ValueError"
    | _, Some n =>
        if (n <=? 0)%Z then Failed "ValueError"
        else Done {| string_tensor := files; num_epochs := epochs;
                     shuffle := shuffle |}
    | _, None =>
        Done {| string_tensor := files; num_epochs := epochs;
                shuffle := shuffle |}
    end;
  Pipeline.read_up_to := fun options queue n =>
    Done (ReadUpTo options queue n 0, ReadUpTo options queue n 1);
  Pipeline.shuffle_batch := fun tensors size capacity floor many threads =>
    if (capacity - floor =? 0)%Z then Failed "ZeroDivisionError"
    else if (2 ^ 31 <=? size)%Z then Failed "ValueError"
    else Done (outputs tensors
                 (ShuffleBatch tensors size capacity floor many threads));
  Pipeline.batch := fun tensors size capacity many threads =>
    if (capacity =? 0)%Z then Failed "ZeroDivisionError"
    else if (2 ^ 31 <=? size)%Z then Failed "ValueError"
    else Done (outputs tensors (Batch tensors size capacity many threads))
|}.

(** The nodes recorded for [demo_input_files] with batches of 32. *)
Definition demo_queue (epochs : option Z) (shuffle : bool) : QueueNode :=
  {| string_tensor := demo_matched; num_epochs := epochs;
     shuffle := shuffle |}.

Definition demo_example (epochs : option Z) (shuffle : bool) (output : nat)
  : TensorNode :=
  ReadUpTo {| Pipeline.compression_type := Pipeline.GZIP |}
    (demo_queue epochs shuffle) 32 output.

Definition demo_examples (epochs : option Z) (shuffle : bool)
  : list TensorNode :=
  [demo_example epochs shuffle 0; demo_example epochs shuffle 1].

(** An argument list stored at reference 1, aliased by nothing else, next
    to an unrelated list at reference 2. *)
Definition demo_store : gmap positive (list string) :=
  <[1%positive := ["--max_steps"; "2000"]]>
    (<[2%positive := ["train"]]> ∅).

(** A list in which the flag only occurs as the value of another flag. *)
Definition value_store : gmap positive (list string) :=
  <[1%positive := ["--job_name"; "--max_steps"]]> ∅.

(** A runtime computing with exact rationals: scores are rationals, a
    label is in the top [k] of a row when fewer than [k] scores of the row
    exceed its own. *)
Definition row_in_top_k (k : Z) (row : list Q) (label : Z) : bool :=
  match row !! Z.to_nat label with
  | Some score =>
      (Z.of_nat (length (filter (fun x => Qle_bool x score = false) row))
       <? k)%Z
  | None => false
  end.

#[export] Instance exact_runtime : Metrics.Runtime := {|
  Metrics.float32 := Q;
  Metrics.f_zero := 0%Q;
  Metrics.f_add := Qplus;
  Metrics.f_div := Qdiv;
  Metrics.f_of_int32 := inject_Z;
  Metrics.Logits := list (list Q);
  Metrics.Labels := list Z;
  Metrics.in_top_k := fun logits labels k =>
    zip_with (row_in_top_k k) logits labels
|}.

(** Three training steps with the loss values 1/2, 1/4 and 3/4. *)
Definition demo_losses : list Q := [(1 # 2)%Q; (1 # 4)%Q; (3 # 4)%Q].

(** Two evaluation batches of two and one examples over three classes. *)
Definition demo_batches : list (list (list Q) * list Z) :=
  [ ([[1%Q; 5%Q; 2%Q]; [4%Q; 0%Q; 1%Q]], [1%Z; 2%Z]);
    ([[0%Q; 0%Q; 7%Q]], [2%Z]) ].

End Fixture.

(** ** Vocabulary of the statements *)
Module Expected.

Import PyStr.

(** The message of the explicit failure for [input_dir]. *)
Definition latest_message (input_dir : string) : string :=
  "Cannot find " +:+ dquote +:+ "latest" +:+ dquote +:+ " file in "
    +:+ dquote +:+ input_dir +:+ dquote
    +:+ ". Please use a preprocessing output dir.".

(** The files named by the entries of [input_files]: every entry is cut at
    its commas and every part is expanded by [matches]. *)
Definition expanded (matches : string -> list string)
  (input_files : list string) : list string :=
  concat (map (fun e => concat (map matches (split comma e))) input_files).

(** Number of [true] entries of a boolean vector. *)
Fixpoint hits (v : list bool) : Z :=
  match v with
  | [] => 0%Z
  | b :: rest => ((if b then 1 else 0) + hits rest)%Z
  end.

(** Number of entries of a vector. *)
Definition size (v : list bool) : Z := Z.of_nat (length v).

(** Exact sum of a list of integers. *)
Definition total (zs : list Z) : Z := foldr Z.add 0%Z zs.

(** The verdicts of one run: which labels are in the top 1 of their
    logits. *)
Definition top1 `{RT : Metrics.Runtime} {Run : Type}
  (logits : Run -> Metrics.Logits) (labels : Run -> Metrics.Labels)
  (r : Run) : list bool :=
  Metrics.in_top_k (logits r) (labels r) 1.

End Expected.

(** ** Observations and further surroundings *)
Module Observed.

Import PyStr Pipeline.

(** What the glob matcher of [env] returns for [path], when it returns. *)
Definition matches_of (env : Env) (path : string) : list string :=
  match get_matching_files env path with
  | Done l => l
  | Failed _ => []
  end.

(** A caller patching the same list with several flag/value pairs, one
    call after the other. *)
Definition override_all {V : Type} `{EqDecision V} (pairs : list (V * V))
  (args : positive) (store : gmap positive (list V))
  : gmap positive (list V) :=
  foldl (fun st p => Args.override_if_not_in_args p.1 p.2 args st)
        store pairs.

(** A file layer given by tables, on a machine with [cores] cores. *)
Definition table_env (files : list (string * string))
  (globs : list (string * list string)) (cores : Z) : Env := {|
  file_exists := fun p =>
    Done (match Fixture.assoc files p with
          | Some _ => true
          | None => false
          end);
  open_local_or_gcs_read := fun p =>
    match Fixture.assoc files p with
    | Some content => Done content
    | None => Failed "IOError"
    end;
  glob_files := fun p =>
    match Fixture.assoc globs p with
    | Some l => Done l
    | None => Failed "NotFoundError"
    end;
  get_matching_files := fun p =>
    match Fixture.assoc globs p with
    | Some l => Done l
    | None => Failed "NotFoundError"
    end;
  cpu_count := Done cores
|}.

(** The marker names a rooted directory outside the input directory. *)
Definition rooted_env : Env :=
  table_env
    [ ("/data/latest", Fixture.lines ["/mnt/v7"]) ]
    [ ("/mnt/v7/train*.tfrecord.gz", ["/mnt/v7/train-0.tfrecord.gz"]);
      ("/mnt/v7/eval*.tfrecord.gz", ["/mnt/v7/eval-0.tfrecord.gz"]) ]
    2.

(** The marker holds a newline only; the labels file is blank too. *)
Definition blank_env : Env :=
  table_env
    [ ("/data/latest", Fixture.lines [""]);
      ("/data/labels", Fixture.lines [""; ""]) ]
    []
    2.

(** The marker is reported present but cannot be read. *)
Definition unreadable_env : Env := {|
  file_exists := fun _ => Done true;
  open_local_or_gcs_read := fun _ => Failed "PermissionDeniedError";
  glob_files := fun _ => Done [];
  get_matching_files := fun _ => Done [];
  cpu_count := Done 1%Z
|}.

(** Two runs over empty batches. *)
Definition empty_batches : list (list (list Q) * list Z) :=
  [ ([], []); ([], []) ].

(** Flag/value pairs a caller adds to its argument list. *)
Definition demo_pairs : list (string * string) :=
  [ ("--batch_size", "64"); ("--max_steps", "1"); ("--checkpoint", "ckpt") ].

End Observed.

(** * Properties *)

(** stdpp blocks the unfolding of string concatenation; the proofs below
    compute with it. *)
#[local] Arguments String.append !_ _ : simpl nomatch.

(** ** Strings and paths *)
Section StringFacts.

Import PyStr.

Lemma append_empty_r (s : string) : s +:+ EmptyString = s.
Proof. induction s as [|c s IH]; simpl; [reflexivity | now f_equal]. Qed.

Lemma append_assoc (s t u : string) : (s +:+ t) +:+ u = s +:+ (t +:+ u).
Proof. induction s as [|c s IH]; simpl; [reflexivity | now f_equal]. Qed.

Lemma is_empty_true (s : string) : is_empty s = true -> s = EmptyString.
Proof. destruct s; [reflexivity | discriminate]. Qed.

(** What [rstrip] removes is a suffix made of whitespace only. *)
Lemma rstrip_suffix (s : string) :
  exists w, s = rstrip s +:+ w /\ all_space w = true.
Proof.
  induction s as [|c s (w & Hs & Hw)]; simpl.
  - exists EmptyString. split; reflexivity.
  - destruct (is_space c) eqn:Hc; simpl.
    + destruct (is_empty (rstrip s)) eqn:He.
      * apply is_empty_true in He. rewrite He in Hs. simpl in Hs.
        exists (String c w). simpl. rewrite Hc, Hw, <- Hs. split; reflexivity.
      * exists w. simpl. rewrite <- Hs. split; [reflexivity | exact Hw].
    + exists w. simpl. rewrite <- Hs. split; [reflexivity | exact Hw].
Qed.

(** [rstrip] leaves no trailing whitespace: a stripped string that ends in
    [c] has [c] not a space. *)
Lemma rstrip_last_not_space (s t : string) (c : ascii) :
  rstrip s = t +:+ String c EmptyString -> is_space c = false.
Proof.
  revert t. induction s as [|d s IH]; intros t; simpl.
  - destruct t; discriminate.
  - destruct (is_space d) eqn:Hd; simpl.
    + destruct (is_empty (rstrip s)) eqn:He.
      * destruct t; discriminate.
      * destruct t as [|e t]; simpl; intros Heq; injection Heq as -> Hr.
        -- rewrite Hr in He. discriminate.
        -- eauto.
    + destruct t as [|e t]; simpl; intros Heq; injection Heq as -> Hr.
      * exact Hd.
      * eauto.
Qed.

Lemma rstrip_idempotent (s : string) : rstrip (rstrip s) = rstrip s.
Proof.
  induction s as [|c s IH]; [reflexivity |]. simpl.
  destruct (is_space c && is_empty (rstrip s)) eqn:Hc; [reflexivity |].
  simpl. now rewrite IH, Hc.
Qed.

Example rstrip_marker :
  rstrip (String "v" (String "1" (String " " (String newline EmptyString))))
  = "v1".
Proof. reflexivity. Qed.

Example rstrip_inner_space : rstrip "a b  " = "a b".
Proof. reflexivity. Qed.

Example rstrip_blank : rstrip "   " = EmptyString.
Proof. reflexivity. Qed.

Lemma split_not_nil (sep : ascii) (s : string) : split sep s <> [].
Proof.
  destruct s as [|c s]; simpl; [discriminate |].
  destruct (Ascii.eqb c sep); [discriminate |].
  destruct (split sep s); discriminate.
Qed.

(** Splitting loses nothing: joining the pieces with the separator gives
    the string back. *)
Lemma join_split (sep : ascii) (s : string) : join sep (split sep s) = s.
Proof.
  induction s as [|c s IH]; [reflexivity |].
  pose proof (split_not_nil sep s) as Hne. simpl.
  destruct (Ascii.eqb c sep) eqn:Hc.
  - apply Ascii.eqb_eq in Hc. subst c.
    destruct (split sep s) as [|p r]; [contradiction |].
    change (join sep (EmptyString :: p :: r))
      with (EmptyString +:+ String sep (join sep (p :: r))).
    rewrite IH. reflexivity.
  - destruct (split sep s) as [|p r]; [contradiction |].
    destruct r as [|q r]; simpl in *; now rewrite IH.
Qed.

(** No piece of a split holds the separator. *)
Lemma split_pieces (sep : ascii) (s : string) :
  Forall (fun piece => contains_char sep piece = false) (split sep s).
Proof.
  induction s as [|c s IH]; simpl.
  - constructor; [reflexivity | constructor].
  - destruct (Ascii.eqb c sep) eqn:Hc.
    + constructor; [reflexivity | exact IH].
    + destruct (split sep s) as [|p r]; simpl.
      * constructor; [simpl; now rewrite Hc | constructor].
      * inversion IH as [|? ? Hp Hr]; subst.
        constructor; [simpl; now rewrite Hc, Hp | exact Hr].
Qed.

Example split_commas : split comma "a,b,,c" = ["a"; "b"; ""; "c"].
Proof. reflexivity. Qed.

Example split_empty : split comma EmptyString = [EmptyString].
Proof. reflexivity. Qed.

Example split_trailing : split comma "a," = ["a"; ""].
Proof. reflexivity. Qed.

Example path_join_plain : path_join "/data" "latest" = "/data/latest".
Proof. reflexivity. Qed.

Example path_join_trailing_sep : path_join "gs://b/out/" "v1" = "gs://b/out/v1".
Proof. reflexivity. Qed.

Example path_join_empty_dir : path_join EmptyString "latest" = "latest".
Proof. reflexivity. Qed.

Example path_join_rooted : path_join "/data" "/elsewhere" = "/elsewhere".
Proof. reflexivity. Qed.

(** Joining a directory with a relative name keeps the directory in
    front. *)
Lemma path_join_relative (a b : string) :
  startswith_sep b = false ->
  path_join a b =
    a +:+ (if is_empty a || endswith_sep a then EmptyString else "/") +:+ b.
Proof.
  intros Hb. unfold path_join. rewrite Hb.
  destruct (is_empty a || endswith_sep a); reflexivity.
Qed.

(** An absolute second component discards the first. *)
Lemma path_join_absolute (a b : string) :
  startswith_sep b = true -> path_join a b = b.
Proof. intros Hb. unfold path_join. now rewrite Hb. Qed.

End StringFacts.

(** ** Results *)
Section ResultFacts.

Lemma call_not_Exception {A : Type} (x : io A) :
  raises_Exception (call x) = false.
Proof. destruct x; reflexivity. Qed.

Lemma bind_not_Exception {A B : Type} (r : result A) (k : A -> result B) :
  raises_Exception r = false ->
  (forall a, raises_Exception (k a) = false) ->
  raises_Exception (r ≫= k) = false.
Proof. intros Hr Hk. destruct r as [a|e]; [apply Hk | exact Hr]. Qed.

End ResultFacts.

(** ** The data directory *)
Section DataDirFacts.

Import PyStr DataDir Expected.

Variable env : Env.

Lemma latest_format_filled (input_dir : string) :
  percent_s latest_format input_dir = latest_message input_dir.
Proof.
  unfold latest_message, latest_format, dquote. simpl. reflexivity.
Qed.

Lemma get_latest_absent (input_dir : string) :
  file_exists env (path_join input_dir "latest") = Done false ->
  _get_latest_data_dir env input_dir
  = Raise (Exception (latest_message input_dir)).
Proof.
  intros Hx. unfold _get_latest_data_dir.
  rewrite Hx, latest_format_filled. reflexivity.
Qed.

Lemma get_latest_present (input_dir : string) :
  file_exists env (path_join input_dir "latest") = Done true ->
  _get_latest_data_dir env input_dir
  = content ← call (open_local_or_gcs_read env (path_join input_dir "latest"));
    Ok (path_join input_dir (rstrip content)).
Proof. intros Hx. unfold _get_latest_data_dir. now rewrite Hx. Qed.

(** C1. When the "latest" marker of [input_dir] is reported absent,
    [_get_latest_data_dir], [get_train_eval_files] and [get_labels] all
    raise the [Exception] whose message quotes [input_dir] and ends with
    "Please use a preprocessing output dir."; when the marker is reported
    present, none of the three raises an [Exception] of the module's own
    (only failures of the external layer can surface). *)
Theorem latest_marker_failure (input_dir : string) (found : bool) :
  file_exists env (path_join input_dir "latest") = Done found ->
  match found with
  | false =>
      _get_latest_data_dir env input_dir
        = Raise (Exception (latest_message input_dir)) /\
      get_train_eval_files env input_dir
        = Raise (Exception (latest_message input_dir)) /\
      get_labels env input_dir
        = Raise (Exception (latest_message input_dir))
  | true =>
      raises_Exception (_get_latest_data_dir env input_dir) = false /\
      raises_Exception (get_train_eval_files env input_dir) = false /\
      raises_Exception (get_labels env input_dir) = false
  end.
Proof.
  intros Hx. destruct found.
  - assert (Hd : raises_Exception (_get_latest_data_dir env input_dir) = false).
    { rewrite (get_latest_present _ Hx).
      apply bind_not_Exception; [apply call_not_Exception | reflexivity]. }
    split; [exact Hd | split].
    + unfold get_train_eval_files.
      apply bind_not_Exception; [exact Hd | intros d].
      apply bind_not_Exception; [apply call_not_Exception | intros t].
      apply bind_not_Exception; [apply call_not_Exception | reflexivity].
    + unfold get_labels.
      apply bind_not_Exception; [exact Hd | intros d].
      apply bind_not_Exception; [apply call_not_Exception | reflexivity].
  - pose proof (get_latest_absent _ Hx) as Hd.
    unfold get_train_eval_files, get_labels. rewrite Hd.
    repeat split; reflexivity.
Qed.

(** C5. With the marker present and readable, the data directory is
    [input_dir] joined with the stripped marker contents, and
    [get_train_eval_files] returns the files globbed under it for
    'train*.tfrecord.gz' and 'eval*.tfrecord.gz', in that order. *)
Theorem get_train_eval_files_resolved
  (input_dir content : string) (train_files eval_files : list string) :
  file_exists env (path_join input_dir "latest") = Done true ->
  open_local_or_gcs_read env (path_join input_dir "latest") = Done content ->
  glob_files env
    (path_join (path_join input_dir (rstrip content)) "train*.tfrecord.gz")
    = Done train_files ->
  glob_files env
    (path_join (path_join input_dir (rstrip content)) "eval*.tfrecord.gz")
    = Done eval_files ->
  _get_latest_data_dir env input_dir
    = Ok (path_join input_dir (rstrip content)) /\
  get_train_eval_files env input_dir = Ok (train_files, eval_files).
Proof.
  intros Hx Hr Ht He.
  assert (Hd : _get_latest_data_dir env input_dir
               = Ok (path_join input_dir (rstrip content))).
  { rewrite (get_latest_present _ Hx), Hr. reflexivity. }
  split; [exact Hd |].
  unfold get_train_eval_files. rewrite Hd. simpl. rewrite Ht. simpl.
  rewrite He. reflexivity.
Qed.

(** C6. With the marker present and readable, [get_labels] returns the
    contents of the file 'labels' of the data directory, stripped of
    trailing whitespace and split at newlines. *)
Theorem get_labels_resolved (input_dir content labels_content : string) :
  file_exists env (path_join input_dir "latest") = Done true ->
  open_local_or_gcs_read env (path_join input_dir "latest") = Done content ->
  open_local_or_gcs_read env
    (path_join (path_join input_dir (rstrip content)) "labels")
    = Done labels_content ->
  get_labels env input_dir = Ok (split newline (rstrip labels_content)).
Proof.
  intros Hx Hr Hl. unfold get_labels.
  rewrite (get_latest_present _ Hx), Hr. simpl. rewrite Hl. reflexivity.
Qed.

End DataDirFacts.

(** ** The input pipeline *)
Section PipelineFacts.

Import PyStr Pipeline Expected.

Variable tf : TensorFlow.

Variable env : Env.

(** The inner loop appends the matches of each part, in order. *)
Lemma inner_loop_appends (matches : string -> list string)
  (parts : list string) (files : list string) :
  (forall path, path ∈ parts ->
     get_matching_files env path = Done (matches path)) ->
  for_each parts
    (fun path files =>
       matched ← call (get_matching_files env path);
       Ok (files ++ matched)%list)
    files
  = Ok (files ++ concat (map matches parts))%list.
Proof.
  revert files. induction parts as [|p parts IH]; intros files Hm; simpl.
  - now rewrite app_nil_r.
  - rewrite (Hm p) by set_solver. simpl.
    rewrite IH by (intros q Hq; apply Hm; set_solver).
    now rewrite <- app_assoc.
Qed.

Lemma outer_loop_appends (matches : string -> list string)
  (entries : list string) (files : list string) :
  (forall e path, e ∈ entries -> path ∈ split comma e ->
     get_matching_files env path = Done (matches path)) ->
  for_each entries
    (fun e files =>
       for_each (split comma e)
         (fun path files =>
            matched ← call (get_matching_files env path);
            Ok (files ++ matched)%list)
         files)
    files
  = Ok (files ++ expanded matches entries)%list.
Proof.
  unfold expanded.
  revert files. induction entries as [|e entries IH]; intros files Hm; simpl.
  - now rewrite app_nil_r.
  - rewrite (inner_loop_appends matches) by (intros q Hq; apply (Hm e); set_solver).
    simpl. rewrite IH by (intros e' q He' Hq; apply (Hm e'); set_solver).
    now rewrite <- app_assoc.
Qed.

Lemma collect_files_expanded (matches : string -> list string)
  (input_files : list string) :
  (forall e path, e ∈ input_files -> path ∈ split comma e ->
     get_matching_files env path = Done (matches path)) ->
  collect_files env input_files = Ok (expanded matches input_files).
Proof.
  intros Hm. unfold collect_files. now rewrite (outer_loop_appends matches).
Qed.

(** Once the files are collected and the core count is known, what is left
    of [read_examples] is the chain of the three builder calls. *)
Lemma read_examples_built (input_files files : list string)
  (batch_size threads : Z) (shuffle : bool) (num_epochs : option Z) :
  collect_files env input_files = Ok files ->
  cpu_count env = Done threads ->
  read_examples tf env input_files batch_size shuffle num_epochs
  = filename_queue ←
      call (string_input_producer tf files (or_None num_epochs) shuffle);
    '(example_id, encoded_example) ←
      call (read_up_to tf {| compression_type := GZIP |} filename_queue
              batch_size);
    call (if shuffle
          then shuffle_batch tf [example_id; encoded_example] batch_size
                 (1000 + (threads + 3) * batch_size) 1000 true threads
          else batch tf [example_id; encoded_example] batch_size
                 ((threads + 3) * batch_size) true threads).
Proof.
  intros Hf Hc. unfold read_examples. rewrite Hf. simpl. rewrite Hc. simpl.
  destruct (string_input_producer tf files (or_None num_epochs) shuffle)
    as [q|err]; simpl; [|reflexivity].
  destruct (read_up_to tf {| compression_type := GZIP |} q batch_size)
    as [[example_id encoded_example]|err]; simpl; [|reflexivity].
  destruct shuffle; reflexivity.
Qed.

(** With the queue and the records built, the outcome of [read_examples] is
    the outcome of the batcher it calls last. *)
Lemma read_examples_batched (input_files files : list string)
  (batch_size threads : Z) (shuffle : bool) (num_epochs : option Z)
  (filename_queue : Queue tf) (example_id encoded_example : Tensor tf) :
  collect_files env input_files = Ok files ->
  cpu_count env = Done threads ->
  string_input_producer tf files (or_None num_epochs) shuffle
    = Done filename_queue ->
  read_up_to tf {| compression_type := GZIP |} filename_queue batch_size
    = Done (example_id, encoded_example) ->
  read_examples tf env input_files batch_size shuffle num_epochs
  = call (if shuffle
          then shuffle_batch tf [example_id; encoded_example] batch_size
                 (1000 + (threads + 3) * batch_size) 1000 true threads
          else batch tf [example_id; encoded_example] batch_size
                 ((threads + 3) * batch_size) true threads).
Proof.
  intros Hf Hc Hq Hr.
  rewrite (read_examples_built _ _ batch_size _ shuffle num_epochs Hf Hc).
  rewrite Hq. simpl. rewrite Hr. reflexivity.
Qed.

(** A zero epoch count and an absent one make the same calls, whatever the
    external calls do. *)
Lemma read_examples_falsy_epochs (input_files : list string)
  (batch_size : Z) (shuffle : bool) :
  read_examples tf env input_files batch_size shuffle (Some 0%Z)
  = read_examples tf env input_files batch_size shuffle None.
Proof. reflexivity. Qed.

(** A non-zero epoch count reaches the filename queue unchanged. *)
Lemma or_None_nonzero (n : Z) : n <> 0%Z -> or_None (Some n) = Some n.
Proof. intros Hn. unfold or_None. now destruct (Z.eqb_spec n 0). Qed.

(** C7. The thread count is the core count reported by [cpu_count]. When
    the filename queue and the reader, set to GZIP compression, are built,
    [read_examples] ends with one batcher call and returns or raises as
    that call does: with [shuffle] set it is [shuffle_batch] with capacity
    1000 + (thread_count + 3) * batch_size and [min_after_dequeue] 1000,
    otherwise it is [batch] with capacity (thread_count + 3) * batch_size;
    in both cases the batcher gets the two tensors of the reader, the batch
    size and the thread count. *)
Theorem read_examples_pipeline (input_files files : list string)
  (batch_size threads : Z) (shuffle : bool) (num_epochs : option Z)
  (filename_queue : Queue tf) (example_id encoded_example : Tensor tf) :
  collect_files env input_files = Ok files ->
  cpu_count env = Done threads ->
  string_input_producer tf files (or_None num_epochs) shuffle
    = Done filename_queue ->
  read_up_to tf {| compression_type := GZIP |} filename_queue batch_size
    = Done (example_id, encoded_example) ->
  read_examples tf env input_files batch_size shuffle num_epochs
  = call (if shuffle
          then shuffle_batch tf [example_id; encoded_example] batch_size
                 (1000 + (threads + 3) * batch_size) 1000 true threads
          else batch tf [example_id; encoded_example] batch_size
                 ((threads + 3) * batch_size) true threads).
Proof. apply read_examples_batched. Qed.

(** C8. Passing 0 for [num_epochs] is the same as passing [None], whatever
    the external calls do; in both cases the filename queue is asked for
    with [None] as its epoch count, and when that queue and the reader are
    built the outcome is the outcome of the batcher fed from them. *)
Theorem read_examples_zero_epochs (input_files : list string)
  (batch_size : Z) (shuffle : bool) :
  read_examples tf env input_files batch_size shuffle (Some 0%Z)
  = read_examples tf env input_files batch_size shuffle None /\
  (forall (files : list string) (threads : Z) (filename_queue : Queue tf)
          (example_id encoded_example : Tensor tf),
     collect_files env input_files = Ok files ->
     cpu_count env = Done threads ->
     string_input_producer tf files None shuffle = Done filename_queue ->
     read_up_to tf {| compression_type := GZIP |} filename_queue batch_size
       = Done (example_id, encoded_example) ->
     read_examples tf env input_files batch_size shuffle (Some 0%Z)
     = call (if shuffle
             then shuffle_batch tf [example_id; encoded_example] batch_size
                    (1000 + (threads + 3) * batch_size) 1000 true threads
             else batch tf [example_id; encoded_example] batch_size
                    ((threads + 3) * batch_size) true threads)).
Proof.
  split; [apply read_examples_falsy_epochs |].
  intros files threads filename_queue example_id encoded_example Hf Hc Hq Hr.
  exact (read_examples_batched _ _ batch_size _ shuffle (Some 0%Z) _ _ _
           Hf Hc Hq Hr).
Qed.

(** C9. When every comma separated part of every entry is expanded by the
    glob matcher, the list of files is the concatenation of the matches of
    all parts of all entries, in order, and it is this list that the
    filename queue is asked for: when the queue over it and the reader are
    built, the outcome is the outcome of the batcher fed from them. *)
Theorem read_examples_files (matches : string -> list string)
  (input_files : list string) (batch_size threads : Z) (shuffle : bool)
  (num_epochs : option Z)
  (filename_queue : Queue tf) (example_id encoded_example : Tensor tf) :
  (forall e path, e ∈ input_files -> path ∈ split comma e ->
     get_matching_files env path = Done (matches path)) ->
  cpu_count env = Done threads ->
  string_input_producer tf (expanded matches input_files)
    (or_None num_epochs) shuffle = Done filename_queue ->
  read_up_to tf {| compression_type := GZIP |} filename_queue batch_size
    = Done (example_id, encoded_example) ->
  collect_files env input_files = Ok (expanded matches input_files) /\
  read_examples tf env input_files batch_size shuffle num_epochs
  = call (if shuffle
          then shuffle_batch tf [example_id; encoded_example] batch_size
                 (1000 + (threads + 3) * batch_size) 1000 true threads
          else batch tf [example_id; encoded_example] batch_size
                 ((threads + 3) * batch_size) true threads).
Proof.
  intros Hm Hc Hq Hr. pose proof (collect_files_expanded _ _ Hm) as Hf.
  split; [exact Hf |].
  exact (read_examples_batched _ _ batch_size _ shuffle num_epochs _ _ _
           Hf Hc Hq Hr).
Qed.

End PipelineFacts.

(** ** Patching an argument list *)
Section ArgsFacts.

Import Args.

Local Open Scope list_scope.

Context {V : Type} `{EqDecision V}.

Lemma py_in_elem_of (x : V) (l : list V) : py_in x l = bool_decide (x ∈ l).
Proof.
  induction l as [|y l IH]; cbn [py_in].
  - symmetry. apply bool_decide_eq_false_2. set_solver.
  - rewrite IH. destruct (decide (y = x)) as [->|Hne].
    + rewrite bool_decide_eq_true_2 by reflexivity. simpl.
      symmetry. apply bool_decide_eq_true. set_solver.
    + rewrite (bool_decide_eq_false_2 (y = x)) by exact Hne. simpl.
      apply bool_decide_ext. rewrite elem_of_cons.
      split; [now right | intros [Heq | Hin]; [congruence | exact Hin]].
Qed.

Lemma override_present (flag argument : V) (args : ref)
  (store : gmap positive (list V)) (l : list V) :
  store !! args = Some l -> flag ∈ l ->
  override_if_not_in_args flag argument args store = store.
Proof.
  intros Hl Hin. unfold override_if_not_in_args.
  rewrite Hl, py_in_elem_of, bool_decide_eq_true_2 by exact Hin. reflexivity.
Qed.

Lemma override_absent (flag argument : V) (args : ref)
  (store : gmap positive (list V)) (l : list V) :
  store !! args = Some l -> flag ∉ l ->
  override_if_not_in_args flag argument args store
  = <[args := l ++ [flag; argument]]> store.
Proof.
  intros Hl Hin. unfold override_if_not_in_args.
  rewrite Hl, py_in_elem_of, bool_decide_eq_false_2 by exact Hin. reflexivity.
Qed.

(** C2. After the call the list behind [args] is the old list when [flag]
    is a member of it, and the old list followed by [flag; argument]
    otherwise; every other list of the store is as before. *)
Theorem override_if_not_in_args_effect (flag argument : V) (args : ref)
  (store : gmap positive (list V)) (l : list V) :
  store !! args = Some l ->
  override_if_not_in_args flag argument args store !! args
    = Some (if bool_decide (flag ∈ l) then l else l ++ [flag; argument]) /\
  (forall other : ref, other <> args ->
     override_if_not_in_args flag argument args store !! other
     = store !! other).
Proof.
  intros Hl. destruct (decide (flag ∈ l)) as [Hin|Hin].
  - rewrite (override_present _ _ _ _ _ Hl Hin).
    rewrite bool_decide_eq_true_2 by exact Hin. split; [exact Hl | reflexivity].
  - rewrite (override_absent _ _ _ _ _ Hl Hin).
    rewrite bool_decide_eq_false_2 by exact Hin. split.
    + apply lookup_insert_eq.
    + intros other Hne. apply lookup_insert_ne. congruence.
Qed.

(** C10. Wherever [flag] stands in the list, be it in the place of a flag
    or in the place of a value, the call leaves the store as it is. *)
Theorem override_if_not_in_args_anywhere (flag argument : V) (args : ref)
  (store : gmap positive (list V)) (before after : list V) :
  store !! args = Some (before ++ flag :: after) ->
  override_if_not_in_args flag argument args store = store.
Proof.
  intros Hl. apply (override_present _ _ _ _ _ Hl). set_solver.
Qed.

End ArgsFacts.

(** ** Metric aggregation *)
Section MetricsFacts.

Import Metrics Expected.

Local Open Scope Z_scope.

Context `{RT : Runtime} {Run : Type}.

(** *** int32 arithmetic *)

Lemma wrap_int32_small (z : Z) : - 2 ^ 31 <= z < 2 ^ 31 -> wrap_int32 z = z.
Proof. intros Hz. unfold wrap_int32. rewrite Z.mod_small; lia. Qed.

Lemma wrap_int32_range (z : Z) : - 2 ^ 31 <= wrap_int32 z < 2 ^ 31.
Proof.
  unfold wrap_int32.
  pose proof (Z.mod_pos_bound (z + 2 ^ 31) (2 ^ 32) ltac:(lia)). lia.
Qed.

Lemma int32_add_wrap_l (a b : Z) :
  int32_add (wrap_int32 a) b = wrap_int32 (a + b).
Proof.
  unfold int32_add, wrap_int32. f_equal.
  replace ((a + 2 ^ 31) mod 2 ^ 32 - 2 ^ 31 + b + 2 ^ 31)
    with ((a + 2 ^ 31) mod 2 ^ 32 + b) by lia.
  rewrite Zplus_mod_idemp_l. f_equal. lia.
Qed.

Lemma int32_add_wrap_r (a b : Z) :
  int32_add a (wrap_int32 b) = wrap_int32 (a + b).
Proof.
  unfold int32_add. rewrite (Z.add_comm a (wrap_int32 b)).
  fold (int32_add (wrap_int32 b) a). rewrite int32_add_wrap_l. f_equal. lia.
Qed.

(** The counter wraps to the most negative value past 2^31 - 1. *)
Lemma int32_add_overflow : int32_add (2 ^ 31 - 1) 1 = - 2 ^ 31.
Proof. reflexivity. Qed.

Lemma total_cons (z : Z) (zs : list Z) : total (z :: zs) = z + total zs.
Proof. reflexivity. Qed.

Lemma foldl_int32_add (a : Z) (zs : list Z) :
  foldl int32_add (wrap_int32 a) zs = wrap_int32 (a + total zs).
Proof.
  revert a. induction zs as [|z zs IH]; intros a; simpl.
  - f_equal. lia.
  - rewrite int32_add_wrap_l, IH. f_equal. lia.
Qed.

Lemma total_cast_int32 (v : list bool) : total (cast_int32 v) = hits v.
Proof. induction v as [|b v IH]; simpl; [reflexivity | now rewrite IH]. Qed.

(** Summing the int32 cast of a vector of verdicts counts its [true]
    entries, in int32. *)
Lemma reduce_sum_hits (v : list bool) :
  reduce_sum (cast_int32 v) = wrap_int32 (hits v).
Proof.
  unfold reduce_sum. change 0 with (wrap_int32 0) at 1.
  now rewrite foldl_int32_add, total_cast_int32.
Qed.

Lemma hits_bounds (v : list bool) : 0 <= hits v <= size v.
Proof.
  unfold size. induction v as [|b v IH]; simpl hits; simpl length.
  - lia.
  - destruct b; lia.
Qed.

Lemma hits_logical_not (v : list bool) :
  hits (logical_not v) = size v - hits v.
Proof.
  unfold size. induction v as [|b v IH].
  - reflexivity.
  - change (logical_not (b :: v)) with (negb b :: logical_not v).
    cbn [hits length]. rewrite IH. destruct b; simpl negb; lia.
Qed.

Lemma total_size_nonneg {A : Type} (f : A -> list bool) (xs : list A) :
  0 <= total (map (fun x => size (f x)) xs).
Proof.
  induction xs as [|x xs IH]; simpl; [lia |]. unfold size at 1. lia.
Qed.

Lemma total_hits_bounds {A : Type} (f : A -> list bool) (xs : list A) :
  0 <= total (map (fun x => hits (f x)) xs)
    <= total (map (fun x => size (f x)) xs).
Proof.
  induction xs as [|x xs IH]; simpl; [lia |].
  pose proof (hits_bounds (f x)). lia.
Qed.

Lemma total_hits_misses {A : Type} (f : A -> list bool) (xs : list A) :
  total (map (fun x => hits (f x)) xs)
  + total (map (fun x => size (f x) - hits (f x)) xs)
  = total (map (fun x => size (f x)) xs).
Proof. induction xs as [|x xs IH]; simpl; lia. Qed.

(** *** Loss *)

(** One run of the update ops adds the loss of that run to the sum and 1 to
    the count. *)
Lemma loss_step (loss_value : Run -> float32) (r : Run) (v : LossVars) :
  run (fst (loss loss_value)) r v
  = {| total_loss := f_add (total_loss v) (loss_value r);
       loss_count := int32_add (loss_count v) 1 |}.
Proof. reflexivity. Qed.

(** The two update ops write different variables: the order in which a run
    applies them is immaterial. *)
Lemma loss_updates_commute (loss_value : Run -> float32) (r : Run)
  (v : LossVars) :
  run (rev (fst (loss loss_value))) r v = run (fst (loss loss_value)) r v.
Proof. reflexivity. Qed.

Lemma run_all_cons {Vars : Type} (ops : list (Run -> Vars -> Vars))
  (r : Run) (runs : list Run) (v : Vars) :
  run_all ops (r :: runs) v = run_all ops runs (run ops r v).
Proof. reflexivity. Qed.

Lemma loss_run_all (loss_value : Run -> float32) (runs : list Run)
  (v : LossVars) (c : Z) :
  loss_count v = wrap_int32 c ->
  total_loss (run_all (fst (loss loss_value)) runs v)
    = foldl f_add (total_loss v) (map loss_value runs) /\
  loss_count (run_all (fst (loss loss_value)) runs v)
    = wrap_int32 (c + Z.of_nat (length runs)).
Proof.
  revert v c. induction runs as [|r runs IH]; intros v c Hc.
  - simpl. split; [reflexivity |]. rewrite Hc. f_equal. lia.
  - rewrite run_all_cons, loss_step.
    destruct (IH {| total_loss := f_add (total_loss v) (loss_value r);
                    loss_count := int32_add (loss_count v) 1 |} (c + 1))
      as [Ht Hn].
    { simpl. rewrite Hc. apply int32_add_wrap_l. }
    split; [exact Ht |]. rewrite Hn. f_equal. simpl length. lia.
Qed.

(** C3. Each run of the update ops adds the loss value of the run to the
    sum and 1 to the count. Starting from zero, after one run per element of
    [runs] the sum variable holds the float32 sum of the loss values, taken
    in order, and the count variable holds the number of runs in int32,
    which is the number of runs itself below 2^31; the loss op is the sum
    variable divided by the count variable. *)
Theorem loss_running_mean (loss_value : Run -> float32) (runs : list Run) :
  (forall (r : Run) (v : LossVars),
     run (fst (loss loss_value)) r v
     = {| total_loss := f_add (total_loss v) (loss_value r);
          loss_count := int32_add (loss_count v) 1 |}) /\
  total_loss (run_all (fst (loss loss_value)) runs loss_vars)
    = foldl f_add f_zero (map loss_value runs) /\
  loss_count (run_all (fst (loss loss_value)) runs loss_vars)
    = wrap_int32 (Z.of_nat (length runs)) /\
  (Z.of_nat (length runs) < 2 ^ 31 ->
   loss_count (run_all (fst (loss loss_value)) runs loss_vars)
     = Z.of_nat (length runs)) /\
  snd (loss loss_value) (run_all (fst (loss loss_value)) runs loss_vars)
    = f_div (foldl f_add f_zero (map loss_value runs))
            (f_of_int32
               (loss_count
                  (run_all (fst (loss loss_value)) runs loss_vars))).
Proof.
  destruct (loss_run_all loss_value runs loss_vars 0 eq_refl) as [Ht Hc].
  change (total_loss loss_vars) with f_zero in Ht. rewrite Z.add_0_l in Hc.
  split; [intros r v; apply loss_step |].
  split; [exact Ht |]. split; [exact Hc |]. split.
  - intros Hn. rewrite Hc. apply wrap_int32_small. lia.
  - rewrite <- Ht. reflexivity.
Qed.

(** *** Accuracy *)

Lemma accuracy_step (logits : Run -> Logits) (labels : Run -> Labels)
  (r : Run) (v : AccuracyVars) :
  run (fst (accuracy logits labels)) r v
  = {| correct_count :=
         int32_add (correct_count v)
           (wrap_int32 (hits (top1 logits labels r)));
       incorrect_count :=
         int32_add (incorrect_count v)
           (wrap_int32 (size (top1 logits labels r)
                        - hits (top1 logits labels r))) |}.
Proof.
  rewrite <- hits_logical_not, <- !reduce_sum_hits. reflexivity.
Qed.

Lemma accuracy_updates_commute (logits : Run -> Logits)
  (labels : Run -> Labels) (r : Run) (v : AccuracyVars) :
  run (rev (fst (accuracy logits labels))) r v
  = run (fst (accuracy logits labels)) r v.
Proof. reflexivity. Qed.

Lemma accuracy_run_all (logits : Run -> Logits) (labels : Run -> Labels)
  (runs : list Run) (v : AccuracyVars) (c i : Z) :
  correct_count v = wrap_int32 c ->
  incorrect_count v = wrap_int32 i ->
  correct_count (run_all (fst (accuracy logits labels)) runs v)
    = wrap_int32
        (c + total (map (fun r => hits (top1 logits labels r)) runs)) /\
  incorrect_count (run_all (fst (accuracy logits labels)) runs v)
    = wrap_int32
        (i + total (map (fun r => size (top1 logits labels r)
                                  - hits (top1 logits labels r)) runs)).
Proof.
  revert v c i. induction runs as [|r runs IH]; intros v c i Hc Hi.
  - simpl. rewrite Hc, Hi. split; f_equal; lia.
  - rewrite run_all_cons, accuracy_step.
    match goal with |- context [run_all _ _ ?w] =>
      destruct (IH w (c + hits (top1 logits labels r))
                  (i + (size (top1 logits labels r)
                        - hits (top1 logits labels r))))
        as [Hcc Hic] end.
    { cbn [correct_count]. rewrite Hc, int32_add_wrap_l.
      apply int32_add_wrap_r. }
    { cbn [incorrect_count]. rewrite Hi, int32_add_wrap_l.
      apply int32_add_wrap_r. }
    rewrite Hcc, Hic. cbn [map]. rewrite !total_cons. split; f_equal; lia.
Qed.

(** C4. Each run adds the number of labels in the top 1 of their logits to
    the correct count and the rest of the batch to the incorrect count, in
    int32. Starting from zero, after one run per element of [runs] the
    accuracy op is the correct count divided by the sum of both counts;
    while fewer than 2^31 examples have been seen the counts are the exact
    totals over the runs and add up to the number of examples. *)
Theorem accuracy_running_ratio (logits : Run -> Logits)
  (labels : Run -> Labels) (runs : list Run) :
  (forall (r : Run) (v : AccuracyVars),
     run (fst (accuracy logits labels)) r v
     = {| correct_count :=
            int32_add (correct_count v)
              (wrap_int32 (hits (top1 logits labels r)));
          incorrect_count :=
            int32_add (incorrect_count v)
              (wrap_int32 (size (top1 logits labels r)
                           - hits (top1 logits labels r))) |}) /\
  snd (accuracy logits labels)
      (run_all (fst (accuracy logits labels)) runs accuracy_vars)
    = f_div
        (f_of_int32
           (correct_count
              (run_all (fst (accuracy logits labels)) runs accuracy_vars)))
        (f_of_int32
           (int32_add
              (correct_count
                 (run_all (fst (accuracy logits labels)) runs accuracy_vars))
              (incorrect_count
                 (run_all (fst (accuracy logits labels)) runs
                    accuracy_vars)))) /\
  (total (map (fun r => size (top1 logits labels r)) runs) < 2 ^ 31 ->
   correct_count (run_all (fst (accuracy logits labels)) runs accuracy_vars)
     = total (map (fun r => hits (top1 logits labels r)) runs) /\
   incorrect_count
     (run_all (fst (accuracy logits labels)) runs accuracy_vars)
     = total (map (fun r => size (top1 logits labels r)
                            - hits (top1 logits labels r)) runs) /\
   snd (accuracy logits labels)
       (run_all (fst (accuracy logits labels)) runs accuracy_vars)
     = f_div
         (f_of_int32
            (total (map (fun r => hits (top1 logits labels r)) runs)))
         (f_of_int32
            (total (map (fun r => size (top1 logits labels r)) runs)))).
Proof.
  split; [intros r v; apply accuracy_step |].
  split; [reflexivity |].
  intros Hn.
  destruct (accuracy_run_all logits labels runs accuracy_vars 0 0
              eq_refl eq_refl) as [Hc Hi].
  rewrite Z.add_0_l in Hc, Hi.
  pose proof (total_hits_bounds (top1 logits labels) runs) as Hb.
  pose proof (total_hits_misses (top1 logits labels) runs) as Hs.
  rewrite wrap_int32_small in Hc by lia.
  rewrite wrap_int32_small in Hi by lia.
  split; [exact Hc |]. split; [exact Hi |].
  change (snd (accuracy logits labels) ?v)
    with (f_div (f_of_int32 (correct_count v))
            (f_of_int32 (int32_add (correct_count v) (incorrect_count v)))).
  rewrite Hc, Hi. unfold int32_add. rewrite wrap_int32_small by lia.
  now rewrite Hs.
Qed.

End MetricsFacts.

(** ** The statements at concrete inputs *)
Section Instances.

Import PyStr DataDir Pipeline Args Metrics Expected Fixture.

(** "/tmp" holds no marker in the demo file system, "/data" holds one. *)
Lemma latest_marker_failure_witness :
  (file_exists demo_env (path_join "/tmp" "latest") = Done false /\
   _get_latest_data_dir demo_env "/tmp"
     = Raise (Exception (latest_message "/tmp")) /\
   get_train_eval_files demo_env "/tmp"
     = Raise (Exception (latest_message "/tmp")) /\
   get_labels demo_env "/tmp" = Raise (Exception (latest_message "/tmp"))) /\
  (file_exists demo_env (path_join "/data" "latest") = Done true /\
   raises_Exception (_get_latest_data_dir demo_env "/data") = false /\
   raises_Exception (get_train_eval_files demo_env "/data") = false /\
   raises_Exception (get_labels demo_env "/data") = false).
Proof.
  split; (split; [reflexivity |]).
  - exact (latest_marker_failure demo_env "/tmp" false eq_refl).
  - exact (latest_marker_failure demo_env "/data" true eq_refl).
Defined.

(** "/data/latest" names the version [v1]. *)
Lemma get_train_eval_files_resolved_witness :
  _get_latest_data_dir demo_env "/data" = Ok "/data/v1" /\
  get_train_eval_files demo_env "/data"
  = Ok (["/data/v1/train-0.tfrecord.gz"; "/data/v1/train-1.tfrecord.gz"],
        ["/data/v1/eval-0.tfrecord.gz"]).
Proof.
  exact (get_train_eval_files_resolved demo_env "/data" (lines ["v1"])
           ["/data/v1/train-0.tfrecord.gz"; "/data/v1/train-1.tfrecord.gz"]
           ["/data/v1/eval-0.tfrecord.gz"]
           eq_refl eq_refl eq_refl eq_refl).
Defined.

Lemma get_labels_resolved_witness :
  get_labels demo_env "/data" = Ok ["daisy"; "rose"; "tulip"].
Proof.
  exact (get_labels_resolved demo_env "/data" (lines ["v1"])
           (lines ["daisy"; "rose"; "tulip"]) eq_refl eq_refl eq_refl).
Defined.

(** One entry naming two patterns, four cores, batches of 32: the shuffled
    pipeline gets room for 1000 + 7 * 32 = 1224 examples. *)
Lemma read_examples_pipeline_witness :
  read_examples recording_tf demo_env demo_input_files 32 true None
  = Ok [ShuffleBatch (demo_examples None true) 32 1224 1000 true 4 0;
        ShuffleBatch (demo_examples None true) 32 1224 1000 true 4 1].
Proof.
  exact (read_examples_pipeline recording_tf demo_env demo_input_files
           demo_matched 32 4 true None (demo_queue None true)
           (demo_example None true 0) (demo_example None true 1)
           eq_refl eq_refl eq_refl eq_refl).
Defined.

Lemma read_examples_zero_epochs_witness :
  read_examples recording_tf demo_env demo_input_files 32 false (Some 0%Z)
  = read_examples recording_tf demo_env demo_input_files 32 false None /\
  read_examples recording_tf demo_env demo_input_files 32 false (Some 0%Z)
  = Ok [Batch (demo_examples None false) 32 224 true 4 0;
        Batch (demo_examples None false) 32 224 true 4 1].
Proof.
  destruct (read_examples_zero_epochs recording_tf demo_env
              demo_input_files 32 false) as [Heq Hrun].
  split; [exact Heq |].
  exact (Hrun demo_matched 4%Z (demo_queue None false)
           (demo_example None false 0) (demo_example None false 1)
           eq_refl eq_refl eq_refl eq_refl).
Defined.

Lemma read_examples_files_witness :
  collect_files demo_env demo_input_files = Ok demo_matched /\
  read_examples recording_tf demo_env demo_input_files 32 false (Some 5%Z)
  = Ok [Batch (demo_examples (Some 5%Z) false) 32 224 true 4 0;
        Batch (demo_examples (Some 5%Z) false) 32 224 true 4 1].
Proof.
  exact (read_examples_files recording_tf demo_env
           (fun p => default [] (assoc demo_globs p))
           demo_input_files 32 4 false (Some 5%Z)
           (demo_queue (Some 5%Z) false)
           (demo_example (Some 5%Z) false 0)
           (demo_example (Some 5%Z) false 1)
           (fun _ _ _ _ => eq_refl) eq_refl eq_refl eq_refl).
Defined.

(** "--batch_size" is not in the list at reference 1: it is appended with
    its value, and the list at reference 2 is untouched. *)
Lemma override_if_not_in_args_effect_witness :
  override_if_not_in_args "--batch_size" "64" 1%positive demo_store
    !! 1%positive
    = Some ["--max_steps"; "2000"; "--batch_size"; "64"] /\
  (forall other : positive, other <> 1%positive ->
     override_if_not_in_args "--batch_size" "64" 1%positive demo_store
       !! other
     = demo_store !! other).
Proof.
  exact (override_if_not_in_args_effect "--batch_size" "64" 1%positive
           demo_store ["--max_steps"; "2000"] eq_refl).
Defined.

(** "--max_steps" is present only as the value of "--job_name". *)
Lemma override_if_not_in_args_anywhere_witness :
  override_if_not_in_args "--max_steps" "2000" 1%positive value_store
  = value_store.
Proof.
  exact (override_if_not_in_args_anywhere "--max_steps" "2000" 1%positive
           value_store ["--job_name"] [] eq_refl).
Defined.

Lemma loss_running_mean_witness :
  loss_count (run_all (fst (loss (fun q : Q => q))) demo_losses loss_vars)
    = 3%Z /\
  snd (loss (fun q : Q => q))
      (run_all (fst (loss (fun q : Q => q))) demo_losses loss_vars)
    = Qdiv (Qplus (Qplus (Qplus 0 (1 # 2)) (1 # 4)) (3 # 4)) (inject_Z 3).
Proof.
  pose proof (loss_running_mean (RT := exact_runtime) (fun q : Q => q)
                demo_losses) as (_ & _ & _ & Hc & Hl).
  exact (conj (Hc eq_refl) Hl).
Defined.

(** Batch one: label 1 is the top score of its row, label 2 is not; batch
    two: label 2 is. Two correct out of three. *)
Lemma accuracy_running_ratio_witness :
  correct_count
    (run_all (fst (accuracy fst snd)) demo_batches accuracy_vars) = 2%Z /\
  incorrect_count
    (run_all (fst (accuracy fst snd)) demo_batches accuracy_vars) = 1%Z /\
  snd (accuracy fst snd)
      (run_all (fst (accuracy fst snd)) demo_batches accuracy_vars)
    = Qdiv (inject_Z 2) (inject_Z 3).
Proof.
  pose proof (accuracy_running_ratio (RT := exact_runtime) fst snd
                demo_batches) as (_ & _ & Hn).
  exact (Hn eq_refl).
Defined.

End Instances.

(** * Further properties *)

(** ** The data directory, continued *)
Section DataDirMore.

Import PyStr DataDir Expected.

Variable env : Env.

Lemma rstrip_all_space (w : string) :
  all_space w = true -> rstrip w = EmptyString.
Proof.
  induction w as [|c w IH]; simpl; [reflexivity |].
  intros Hw. apply andb_prop in Hw as [Hc Hw].
  rewrite (IH Hw), Hc. reflexivity.
Qed.

Lemma rstrip_app_space (s w : string) :
  all_space w = true -> rstrip (s +:+ w) = rstrip s.
Proof.
  intros Hw. induction s as [|c s IH]; simpl.
  - now apply rstrip_all_space.
  - now rewrite IH.
Qed.

(** A string whose stripped form is itself has a stripped suffix too. *)
Lemma rstrip_fixed_suffix (a b : string) :
  rstrip (a +:+ b) = a +:+ b -> rstrip b = b.
Proof.
  induction a as [|c a IH]; simpl; [trivial |].
  destruct (is_space c && is_empty (rstrip (a +:+ b))); [discriminate |].
  intros Heq. injection Heq as Heq. auto.
Qed.

Lemma get_train_eval_files_present (input_dir : string) :
  file_exists env (path_join input_dir "latest") = Done true ->
  get_train_eval_files env input_dir
  = content ← call (open_local_or_gcs_read env
                      (path_join input_dir "latest"));
    train_files ← call (glob_files env
                          (path_join (path_join input_dir (rstrip content))
                             "train*.tfrecord.gz"));
    eval_files ← call (glob_files env
                         (path_join (path_join input_dir (rstrip content))
                            "eval*.tfrecord.gz"));
    Ok (train_files, eval_files).
Proof.
  intros Hx. unfold get_train_eval_files.
  rewrite (get_latest_present env _ Hx).
  destruct (open_local_or_gcs_read env (path_join input_dir "latest"));
    reflexivity.
Qed.

Lemma get_labels_present (input_dir : string) :
  file_exists env (path_join input_dir "latest") = Done true ->
  get_labels env input_dir
  = content ← call (open_local_or_gcs_read env
                      (path_join input_dir "latest"));
    labels_content ← call (open_local_or_gcs_read env
                             (path_join
                                (path_join input_dir (rstrip content))
                                "labels"));
    Ok (split newline (rstrip labels_content)).
Proof.
  intros Hx. unfold get_labels.
  rewrite (get_latest_present env _ Hx).
  destruct (open_local_or_gcs_read env (path_join input_dir "latest"));
    reflexivity.
Qed.

Lemma get_latest_returns (input_dir data_dir : string) :
  _get_latest_data_dir env input_dir = Ok data_dir ->
  file_exists env (path_join input_dir "latest") = Done true /\
  exists content,
    open_local_or_gcs_read env (path_join input_dir "latest") = Done content
    /\ data_dir = path_join input_dir (rstrip content).
Proof.
  unfold _get_latest_data_dir.
  destruct (file_exists env (path_join input_dir "latest")) as [[|]|err];
    simpl; try discriminate.
  destruct (open_local_or_gcs_read env (path_join input_dir "latest"))
    as [content|err]; simpl; try discriminate.
  intros Heq. injection Heq as <-. split; [reflexivity |].
  exists content. split; reflexivity.
Qed.

(** X1. Whitespace after the directory name in the marker is immaterial:
    a marker holding [name] followed by whitespace resolves to [input_dir]
    joined with [name]. *)
Theorem latest_marker_trailing_space (input_dir name pad : string) :
  file_exists env (path_join input_dir "latest") = Done true ->
  open_local_or_gcs_read env (path_join input_dir "latest")
    = Done (name +:+ pad) ->
  all_space pad = true ->
  rstrip name = name ->
  _get_latest_data_dir env input_dir = Ok (path_join input_dir name).
Proof.
  intros Hx Hr Hp Hn.
  rewrite (get_latest_present env _ Hx), Hr. simpl.
  now rewrite rstrip_app_space, Hn.
Qed.

(** X2. A marker naming a rooted path sends the lookup there: the input
    directory is dropped from the data directory, and the shard files are
    globbed under the rooted path. *)
Theorem latest_marker_rooted (input_dir content : string)
  (train_files eval_files : list string) :
  file_exists env (path_join input_dir "latest") = Done true ->
  open_local_or_gcs_read env (path_join input_dir "latest") = Done content ->
  startswith_sep (rstrip content) = true ->
  glob_files env (path_join (rstrip content) "train*.tfrecord.gz")
    = Done train_files ->
  glob_files env (path_join (rstrip content) "eval*.tfrecord.gz")
    = Done eval_files ->
  _get_latest_data_dir env input_dir = Ok (rstrip content) /\
  get_train_eval_files env input_dir = Ok (train_files, eval_files).
Proof.
  intros Hx Hr Ha Ht He. split.
  - rewrite (get_latest_present env _ Hx), Hr. simpl.
    now rewrite (path_join_absolute _ _ Ha).
  - rewrite (get_train_eval_files_present _ Hx), Hr. simpl.
    rewrite (path_join_absolute _ _ Ha), Ht. simpl. now rewrite He.
Qed.

(** X3. A marker holding nothing but whitespace resolves to the input
    directory itself, closed by a separator unless it is empty or already
    ends with one. *)
Theorem latest_marker_blank (input_dir content : string) :
  file_exists env (path_join input_dir "latest") = Done true ->
  open_local_or_gcs_read env (path_join input_dir "latest") = Done content ->
  all_space content = true ->
  _get_latest_data_dir env input_dir
  = Ok (if is_empty input_dir || endswith_sep input_dir
        then input_dir else input_dir +:+ "/").
Proof.
  intros Hx Hr Hb.
  rewrite (get_latest_present env _ Hx), Hr. simpl.
  rewrite (rstrip_all_space _ Hb). unfold path_join. simpl startswith_sep.
  destruct (is_empty input_dir || endswith_sep input_dir);
    [now rewrite append_empty_r | reflexivity].
Qed.

(** X4. [get_train_eval_files] returns a pair exactly when the marker is
    reported present, the marker can be read, and both globs under the
    resolved directory succeed. *)
Theorem get_train_eval_files_returns_iff (input_dir : string) :
  (exists files, get_train_eval_files env input_dir = Ok files) <->
  file_exists env (path_join input_dir "latest") = Done true /\
  exists content,
    open_local_or_gcs_read env (path_join input_dir "latest") = Done content
    /\ (exists train_files,
          glob_files env
            (path_join (path_join input_dir (rstrip content))
               "train*.tfrecord.gz") = Done train_files)
    /\ (exists eval_files,
          glob_files env
            (path_join (path_join input_dir (rstrip content))
               "eval*.tfrecord.gz") = Done eval_files).
Proof.
  split.
  - intros [files Hf]. unfold get_train_eval_files in Hf.
    destruct (_get_latest_data_dir env input_dir) as [data_dir|e] eqn:Hd;
      [|discriminate].
    apply get_latest_returns in Hd as (Hx & content & Hr & ->).
    split; [exact Hx |]. exists content. split; [exact Hr |].
    simpl in Hf.
    destruct (glob_files env
                (path_join (path_join input_dir (rstrip content))
                   "train*.tfrecord.gz")) as [t|err]; [|discriminate].
    simpl in Hf.
    destruct (glob_files env
                (path_join (path_join input_dir (rstrip content))
                   "eval*.tfrecord.gz")) as [ev|err]; [|discriminate].
    split; eexists; reflexivity.
  - intros (Hx & content & Hr & [t Ht] & [ev He]).
    exists (t, ev). rewrite (get_train_eval_files_present _ Hx), Hr. simpl.
    rewrite Ht. simpl. now rewrite He.
Qed.

(** X5. [get_labels] returns a list exactly when the marker is reported
    present and both the marker and the labels file of the resolved
    directory can be read. *)
Theorem get_labels_returns_iff (input_dir : string) :
  (exists labels, get_labels env input_dir = Ok labels) <->
  file_exists env (path_join input_dir "latest") = Done true /\
  exists content,
    open_local_or_gcs_read env (path_join input_dir "latest") = Done content
    /\ exists labels_content,
         open_local_or_gcs_read env
           (path_join (path_join input_dir (rstrip content)) "labels")
         = Done labels_content.
Proof.
  split.
  - intros [labels Hl]. unfold get_labels in Hl.
    destruct (_get_latest_data_dir env input_dir) as [data_dir|e] eqn:Hd;
      [|discriminate].
    apply get_latest_returns in Hd as (Hx & content & Hr & ->).
    split; [exact Hx |]. exists content. split; [exact Hr |].
    simpl in Hl.
    destruct (open_local_or_gcs_read env
                (path_join (path_join input_dir (rstrip content)) "labels"))
      as [lc|err]; [|discriminate].
    eexists; reflexivity.
  - intros (Hx & content & Hr & [lc Hl]).
    exists (split newline (rstrip lc)).
    rewrite (get_labels_present _ Hx), Hr. simpl. now rewrite Hl.
Qed.

(** X6. When the marker is reported present but reading it fails, the
    three functions raise that very failure of the file layer. *)
Theorem latest_marker_unreadable (input_dir err : string) :
  file_exists env (path_join input_dir "latest") = Done true ->
  open_local_or_gcs_read env (path_join input_dir "latest") = Failed err ->
  _get_latest_data_dir env input_dir = Raise (External err) /\
  get_train_eval_files env input_dir = Raise (External err) /\
  get_labels env input_dir = Raise (External err).
Proof.
  intros Hx Hr.
  rewrite (get_latest_present env _ Hx), (get_train_eval_files_present _ Hx),
    (get_labels_present _ Hx), Hr.
  repeat split.
Qed.

End DataDirMore.

(** ** Labels *)
Section LabelsFacts.

Import PyStr DataDir Expected.

Variable env : Env.

Lemma rstrip_empty_iff (s : string) :
  rstrip s = EmptyString <-> all_space s = true.
Proof.
  split; [| apply rstrip_all_space].
  induction s as [|c s IH]; simpl; [reflexivity |].
  destruct (is_space c); simpl; [| discriminate].
  destruct (rstrip s); simpl; [auto | discriminate].
Qed.

(** The last piece of a split is a suffix of the string. *)
Lemma split_last_suffix (sep : ascii) (s : string) :
  exists front piece,
    last (split sep s) = Some piece /\ s = front +:+ piece.
Proof.
  induction s as [|c s (front & piece & Hl & Hs)].
  - exists EmptyString, EmptyString. split; reflexivity.
  - pose proof (join_split sep s) as Hj. simpl.
    destruct (Ascii.eqb c sep).
    + exists (String c front), piece. split.
      * destruct (split sep s); [discriminate | exact Hl].
      * simpl. now rewrite <- Hs.
    + destruct (split sep s) as [|p [|q r]]; [discriminate | |].
      * simpl in Hj. subst p. exists EmptyString, (String c s).
        split; reflexivity.
      * exists (String c front), piece. split; [exact Hl |].
        simpl. now rewrite <- Hs.
Qed.

(** A split ends with an empty piece only for the empty string or for a
    string that ends with the separator. *)
Lemma split_last_empty (sep : ascii) (s : string) :
  last (split sep s) = Some EmptyString ->
  s = EmptyString \/ exists front, s = front +:+ String sep EmptyString.
Proof.
  induction s as [|c s IH]; [now left |]. simpl.
  destruct (Ascii.eqb c sep) eqn:Hc.
  - apply Ascii.eqb_eq in Hc. subst c. intros Hl. right.
    destruct (split sep s) as [|p r] eqn:Hsp;
      [now destruct (split_not_nil sep s) |].
    destruct (IH Hl) as [-> | [front ->]].
    + now exists EmptyString.
    + now exists (String sep front).
  - destruct (split sep s) as [|p [|q r]] eqn:Hsp; [discriminate | |].
    + discriminate.
    + intros Hl. right. destruct (IH Hl) as [-> | [front ->]].
      * discriminate.
      * now exists (String c front).
Qed.

Variables (input_dir content labels_content : string).

Hypothesis marker_present :
  file_exists env (path_join input_dir "latest") = Done true.

Hypothesis marker_read :
  open_local_or_gcs_read env (path_join input_dir "latest") = Done content.

Hypothesis labels_read :
  open_local_or_gcs_read env
    (path_join (path_join input_dir (rstrip content)) "labels")
  = Done labels_content.

Lemma get_labels_computed :
  get_labels env input_dir = Ok (split newline (rstrip labels_content)).
Proof.
  rewrite (get_labels_present env _ marker_present), marker_read. simpl.
  now rewrite labels_read.
Qed.

(** X7. [get_labels] never returns the empty list: there is always a first
    label, and a labels file holding nothing but whitespace yields the
    single empty label. *)
Theorem get_labels_never_empty :
  exists first rest,
    get_labels env input_dir = Ok (first :: rest) /\
    (all_space labels_content = true ->
     first = EmptyString /\ rest = []).
Proof.
  rewrite get_labels_computed.
  destruct (split newline (rstrip labels_content)) as [|first rest] eqn:Hs;
    [now destruct (split_not_nil newline (rstrip labels_content)) |].
  exists first, rest. split; [reflexivity |].
  intros Hb. apply rstrip_all_space in Hb. rewrite Hb in Hs.
  simpl in Hs. injection Hs as <- <-. split; reflexivity.
Qed.

(** X8. The labels lose nothing but the trailing whitespace of the file:
    joined with newlines they give back the stripped contents, and no
    label holds a newline. *)
Theorem get_labels_round_trip :
  exists labels,
    get_labels env input_dir = Ok labels /\
    join newline labels = rstrip labels_content /\
    Forall (fun label => contains_char newline label = false) labels.
Proof.
  exists (split newline (rstrip labels_content)).
  split; [apply get_labels_computed |].
  split; [apply join_split | apply split_pieces].
Qed.

(** X9. The last label carries no trailing whitespace, and it is empty only
    when the result is the single empty label: newlines at the end of the
    file add no empty labels. *)
Theorem get_labels_last_stripped :
  exists labels final,
    get_labels env input_dir = Ok labels /\
    last labels = Some final /\
    rstrip final = final /\
    (final = EmptyString -> labels = [EmptyString]).
Proof.
  destruct (split_last_suffix newline (rstrip labels_content))
    as (front & final & Hl & Hs).
  exists (split newline (rstrip labels_content)), final.
  split; [apply get_labels_computed |]. split; [exact Hl |]. split.
  - apply (rstrip_fixed_suffix front). rewrite <- Hs.
    apply rstrip_idempotent.
  - intros ->. destruct (split_last_empty _ _ Hl) as [He | [fr He]].
    + now rewrite He.
    + apply rstrip_last_not_space in He. discriminate.
Qed.

End LabelsFacts.

(** ** The input pipeline, continued *)
Section PipelineMore.

Import PyStr Pipeline Expected Observed.

Variable tf : TensorFlow.

Variable env : Env.

(** The body of the inner loop of [collect_files]. *)
#[local] Abbreviation glob_part :=
  (fun path files =>
     matched ← call (get_matching_files env path);
     Ok (files ++ matched)%list).

(** The body of the outer loop. *)
#[local] Abbreviation glob_entry :=
  (fun e files => for_each (split comma e) glob_part files).

Lemma for_each_app {A S : Type} (xs ys : list A) (body : A -> S -> result S)
  (s : S) :
  for_each (xs ++ ys) body s
  = s' ← for_each xs body s; for_each ys body s'.
Proof.
  revert s. induction xs as [|x xs IH]; intros s; simpl; [reflexivity |].
  destruct (body x s) as [s'|e]; simpl; [apply IH | reflexivity].
Qed.

(** Cutting at a separator that joins two strings cuts each of them. *)
Lemma split_app_sep (sep : ascii) (a b : string) :
  split sep (a +:+ String sep b) = (split sep a ++ split sep b)%list.
Proof.
  induction a as [|c a IH]; simpl.
  - now rewrite Ascii.eqb_refl.
  - rewrite IH. destruct (Ascii.eqb c sep); [reflexivity |].
    pose proof (split_not_nil sep a).
    destruct (split sep a); [contradiction | reflexivity].
Qed.

(** The loops only ever append to the list they are given. *)
Lemma inner_loop_from (parts : list string) (files : list string) :
  for_each parts glob_part files
  = found ← for_each parts glob_part []; Ok (files ++ found)%list.
Proof.
  revert files. induction parts as [|p parts IH]; intros files; simpl.
  - now rewrite app_nil_r.
  - destruct (get_matching_files env p) as [m|err]; simpl; [|reflexivity].
    rewrite (IH (files ++ m)%list), (IH m).
    destruct (for_each parts glob_part []) as [found|e]; simpl;
      [now rewrite app_assoc | reflexivity].
Qed.

Lemma outer_loop_from (entries : list string) (files : list string) :
  for_each entries glob_entry files
  = found ← for_each entries glob_entry []; Ok (files ++ found)%list.
Proof.
  revert files. induction entries as [|e entries IH]; intros files; simpl.
  - now rewrite app_nil_r.
  - rewrite (inner_loop_from _ files).
    destruct (for_each (split comma e) glob_part []) as [m|err]; simpl;
      [|reflexivity].
    rewrite (IH (files ++ m)%list), (IH m).
    destruct (for_each entries glob_entry []) as [found|e']; simpl;
      [now rewrite app_assoc | reflexivity].
Qed.

Lemma read_examples_of_files (xs ys : list string) (batch_size : Z)
  (shuffle : bool) (num_epochs : option Z) :
  collect_files env xs = collect_files env ys ->
  read_examples tf env xs batch_size shuffle num_epochs
  = read_examples tf env ys batch_size shuffle num_epochs.
Proof. intros Heq. unfold read_examples. now rewrite Heq. Qed.

Lemma inner_loop_returns (parts : list string) (files found : list string) :
  for_each parts glob_part files = Ok found ->
  forall path, path ∈ parts ->
    exists l, get_matching_files env path = Done l.
Proof.
  revert files. induction parts as [|p parts IH]; intros files Hf path Hin.
  - now apply elem_of_nil in Hin.
  - simpl in Hf.
    destruct (get_matching_files env p) as [m|err] eqn:Hp; [|discriminate].
    apply elem_of_cons in Hin as [-> | Hin]; [now exists m |].
    exact (IH _ Hf path Hin).
Qed.

Lemma outer_loop_returns (entries : list string) (files found : list string) :
  for_each entries glob_entry files = Ok found ->
  forall e path, e ∈ entries -> path ∈ split comma e ->
    exists l, get_matching_files env path = Done l.
Proof.
  revert files. induction entries as [|x entries IH];
    intros files Hf e path He Hp.
  - now apply elem_of_nil in He.
  - simpl in Hf.
    destruct (for_each (split comma x) glob_part files) as [mid|err] eqn:Hx;
      [|discriminate].
    apply elem_of_cons in He as [-> | He].
    + exact (inner_loop_returns _ _ _ Hx path Hp).
    + exact (IH _ Hf e path He Hp).
Qed.

Lemma matches_of_done (path : string) (l : list string) :
  get_matching_files env path = Done l ->
  get_matching_files env path = Done (matches_of env path).
Proof. intros Hl. unfold matches_of. now rewrite Hl. Qed.

(** X10. With at least one core and a positive batch size the batcher is
    asked for room for at least four batches: [batch] gets a capacity of at
    least 4 * batch_size, and [shuffle_batch] a capacity that exceeds its
    [min_after_dequeue] of 1000 by at least 4 * batch_size. *)
Theorem read_examples_capacity_floor (input_files files : list string)
  (batch_size threads : Z) (shuffle : bool) (num_epochs : option Z)
  (filename_queue : Queue tf) (example_id encoded_example : Tensor tf) :
  collect_files env input_files = Ok files ->
  cpu_count env = Done threads ->
  string_input_producer tf files (or_None num_epochs) shuffle
    = Done filename_queue ->
  read_up_to tf {| compression_type := GZIP |} filename_queue batch_size
    = Done (example_id, encoded_example) ->
  (1 <= threads)%Z ->
  (0 < batch_size)%Z ->
  exists capacity : Z,
    read_examples tf env input_files batch_size shuffle num_epochs
    = call (if shuffle
            then shuffle_batch tf [example_id; encoded_example] batch_size
                   capacity 1000 true threads
            else batch tf [example_id; encoded_example] batch_size
                   capacity true threads) /\
    ((if shuffle then 1000 else 0) + 4 * batch_size <= capacity)%Z.
Proof.
  intros Hf Hc Hq Hr Ht Hb.
  rewrite (read_examples_batched tf env _ _ batch_size _ shuffle num_epochs
             _ _ _ Hf Hc Hq Hr).
  destruct shuffle; eexists; (split; [reflexivity | nia]).
Qed.

(** X11. An entry joining two patterns with a comma is read exactly like
    the two patterns given as separate entries, failures included. *)
Theorem read_examples_comma_entry (before after : list string)
  (a b : string) (batch_size : Z) (shuffle : bool) (num_epochs : option Z) :
  read_examples tf env (before ++ (a +:+ String comma b) :: after)
    batch_size shuffle num_epochs
  = read_examples tf env (before ++ a :: b :: after)
      batch_size shuffle num_epochs.
Proof.
  apply read_examples_of_files. unfold collect_files.
  rewrite !for_each_app.
  destruct (for_each before glob_entry []) as [files|e]; [|reflexivity].
  simpl. rewrite split_app_sep, for_each_app.
  destruct (for_each (split comma a) glob_part files) as [mid|e];
    reflexivity.
Qed.

(** X12. [read_examples] returns exactly when every comma separated part
    of every entry can be expanded, the core count can be obtained, and the
    three builders accept what they are given: the filename queue over the
    collected files, the GZIP reader over that queue, and the batcher over
    the reader's tensors. *)
Theorem read_examples_returns_iff (input_files : list string)
  (batch_size : Z) (shuffle : bool) (num_epochs : option Z) :
  (exists batched,
     read_examples tf env input_files batch_size shuffle num_epochs
     = Ok batched) <->
  (forall e path, e ∈ input_files -> path ∈ split comma e ->
     exists l, get_matching_files env path = Done l) /\
  (exists threads filename_queue example_id encoded_example batched,
     cpu_count env = Done threads /\
     string_input_producer tf (expanded (matches_of env) input_files)
       (or_None num_epochs) shuffle = Done filename_queue /\
     read_up_to tf {| compression_type := GZIP |} filename_queue batch_size
       = Done (example_id, encoded_example) /\
     (if shuffle
      then shuffle_batch tf [example_id; encoded_example] batch_size
             (1000 + (threads + 3) * batch_size) 1000 true threads
      else batch tf [example_id; encoded_example] batch_size
             ((threads + 3) * batch_size) true threads) = Done batched).
Proof.
  split.
  - intros [batched Hb].
    destruct (collect_files env input_files) as [files|e] eqn:Hf;
      [| unfold read_examples in Hb; rewrite Hf in Hb; discriminate].
    destruct (cpu_count env) as [threads|err] eqn:Hc;
      [| unfold read_examples in Hb; rewrite Hf in Hb; simpl in Hb;
         rewrite Hc in Hb; discriminate].
    pose proof (outer_loop_returns _ _ _ Hf) as Hm.
    split; [exact Hm |].
    assert (Hx : collect_files env input_files
                 = Ok (expanded (matches_of env) input_files)).
    { apply collect_files_expanded. intros e path He Hp.
      destruct (Hm e path He Hp) as [l Hl].
      exact (matches_of_done _ _ Hl). }
    rewrite (read_examples_built tf env _ _ batch_size _ shuffle num_epochs
               Hx Hc) in Hb.
    destruct (string_input_producer tf (expanded (matches_of env) input_files)
                (or_None num_epochs) shuffle) as [q|err] eqn:Hq;
      [|discriminate].
    simpl in Hb.
    destruct (read_up_to tf {| compression_type := GZIP |} q batch_size)
      as [[example_id encoded_example]|err] eqn:Hr; [|discriminate].
    simpl in Hb. exists threads, q, example_id, encoded_example, batched.
    split; [reflexivity |]. split; [reflexivity |]. split; [exact Hr |].
    destruct (if shuffle
              then shuffle_batch tf [example_id; encoded_example] batch_size
                     (1000 + (threads + 3) * batch_size) 1000 true threads
              else batch tf [example_id; encoded_example] batch_size
                     ((threads + 3) * batch_size) true threads)
      as [out|err]; [| discriminate].
    simpl in Hb. injection Hb as ->. reflexivity.
  - intros [Hm (threads & q & example_id & encoded_example & batched
                & Hc & Hq & Hr & Hb)].
    assert (Hf : collect_files env input_files
                 = Ok (expanded (matches_of env) input_files)).
    { apply collect_files_expanded. intros e path He Hp.
      destruct (Hm e path He Hp) as [l Hl].
      exact (matches_of_done _ _ Hl). }
    exists batched.
    rewrite (read_examples_batched tf env _ _ batch_size _ shuffle num_epochs
               _ _ _ Hf Hc Hq Hr).
    now rewrite Hb.
Qed.

(** X13. An epoch count other than 0 is handed to the filename queue as it
    is, together with the shuffle flag that also selects the batcher: when
    the queue for exactly that count and the reader are built, the outcome
    is the outcome of the batcher fed from them. *)
Theorem read_examples_epochs_kept (input_files files : list string)
  (batch_size threads n : Z) (shuffle : bool)
  (filename_queue : Queue tf) (example_id encoded_example : Tensor tf) :
  collect_files env input_files = Ok files ->
  cpu_count env = Done threads ->
  n <> 0%Z ->
  string_input_producer tf files (Some n) shuffle = Done filename_queue ->
  read_up_to tf {| compression_type := GZIP |} filename_queue batch_size
    = Done (example_id, encoded_example) ->
  read_examples tf env input_files batch_size shuffle (Some n)
  = call (if shuffle
          then shuffle_batch tf [example_id; encoded_example] batch_size
                 (1000 + (threads + 3) * batch_size) 1000 true threads
          else batch tf [example_id; encoded_example] batch_size
                 ((threads + 3) * batch_size) true threads).
Proof.
  intros Hf Hc Hn Hq Hr. rewrite <- (or_None_nonzero n Hn) in Hq.
  exact (read_examples_batched tf env _ _ batch_size _ shuffle (Some n)
           _ _ _ Hf Hc Hq Hr).
Qed.

(** X14. Files are collected entry by entry: the list for two groups of
    entries put together is the list of the first group followed by the
    list of the second, repeated files included, and it fails as soon as
    one of the groups does. *)
Theorem collect_files_app (xs ys : list string) :
  collect_files env (xs ++ ys)
  = first ← collect_files env xs;
    second ← collect_files env ys;
    Ok (first ++ second)%list.
Proof.
  unfold collect_files. rewrite for_each_app.
  destruct (for_each xs glob_entry []) as [first|e]; [|reflexivity].
  simpl. apply outer_loop_from.
Qed.

End PipelineMore.

(** ** Patching an argument list, continued *)
Section ArgsMore.

Import Args Observed.

Local Open Scope list_scope.

Context {V : Type} `{EqDecision V}.

Lemma override_lookup_other (flag argument : V) (args other : ref)
  (store : gmap positive (list V)) :
  other <> args ->
  override_if_not_in_args flag argument args store !! other
  = store !! other.
Proof.
  intros Hne. unfold override_if_not_in_args.
  destruct (store !! args) as [l|]; [|reflexivity].
  destruct (py_in flag l); simpl; [reflexivity |].
  apply lookup_insert_ne. congruence.
Qed.

Lemma override_lookup_same (flag argument : V) (args : ref)
  (store : gmap positive (list V)) :
  override_if_not_in_args flag argument args store !! args
  = (fun l => if py_in flag l then l else l ++ [flag; argument])
      <$> store !! args.
Proof.
  unfold override_if_not_in_args.
  destruct (store !! args) as [l|] eqn:Hl; simpl; [|exact Hl].
  destruct (py_in flag l); simpl; [exact Hl | apply lookup_insert_eq].
Qed.

(** X15. After a call the flag is a member of the list, so a second call
    for the same flag, with whatever value, changes nothing. *)
Theorem override_if_not_in_args_idempotent (flag argument argument' : V)
  (args : ref) (store : gmap positive (list V)) (l : list V) :
  store !! args = Some l ->
  (exists l',
     override_if_not_in_args flag argument args store !! args = Some l' /\
     flag ∈ l') /\
  override_if_not_in_args flag argument' args
    (override_if_not_in_args flag argument args store)
  = override_if_not_in_args flag argument args store.
Proof.
  intros Hl.
  assert (Hin : exists l',
             override_if_not_in_args flag argument args store !! args
             = Some l' /\ flag ∈ l').
  { rewrite override_lookup_same, Hl. simpl. eexists. split; [reflexivity |].
    rewrite py_in_elem_of. case_bool_decide as Hd; [exact Hd |].
    rewrite elem_of_app, elem_of_cons. right. now left. }
  split; [exact Hin |].
  destruct Hin as (l' & Hl' & Hf).
  exact (override_present _ _ _ _ _ Hl' Hf).
Qed.

(** X16. Calls on two different lists do not interfere: they can be made
    in either order. *)
Theorem override_if_not_in_args_commute (flag1 argument1 flag2 argument2 : V)
  (args1 args2 : ref) (store : gmap positive (list V)) :
  args1 <> args2 ->
  override_if_not_in_args flag1 argument1 args1
    (override_if_not_in_args flag2 argument2 args2 store)
  = override_if_not_in_args flag2 argument2 args2
      (override_if_not_in_args flag1 argument1 args1 store).
Proof.
  intros Hne. apply map_eq. intros r.
  destruct (decide (r = args1)) as [-> | H1].
  - rewrite override_lookup_same, !override_lookup_other by congruence.
    now rewrite override_lookup_same.
  - rewrite override_lookup_other by exact H1.
    destruct (decide (r = args2)) as [-> | H2].
    + rewrite !override_lookup_same.
      now rewrite override_lookup_other by congruence.
    + now rewrite !override_lookup_other by assumption.
Qed.

Lemma override_extends (flag argument : V) (args : ref)
  (store : gmap positive (list V)) (l : list V) :
  store !! args = Some l ->
  exists l',
    override_if_not_in_args flag argument args store !! args = Some l' /\
    l `prefix_of` l' /\ flag ∈ l'.
Proof.
  intros Hl. rewrite override_lookup_same, Hl. simpl.
  eexists. split; [reflexivity |]. rewrite py_in_elem_of.
  case_bool_decide as Hd.
  - split; [reflexivity | exact Hd].
  - split; [now apply prefix_app_r |].
    rewrite elem_of_app, elem_of_cons. right. now left.
Qed.

(** X17. A run of calls patching one list with several flag/value pairs
    keeps the original list as the beginning of the result and leaves
    every one of the flags in it; the other lists are untouched. *)
Theorem override_all_flags_present (pairs : list (V * V)) (args : ref)
  (store : gmap positive (list V)) (l : list V) :
  store !! args = Some l ->
  (exists l',
     override_all pairs args store !! args = Some l' /\
     l `prefix_of` l' /\
     forall p, p ∈ pairs -> p.1 ∈ l') /\
  (forall other : ref, other <> args ->
     override_all pairs args store !! other = store !! other).
Proof.
  revert store l. induction pairs as [|[flag argument] pairs IH];
    intros store l Hl.
  - split; [| reflexivity]. exists l. split; [exact Hl |].
    split; [reflexivity |]. intros p Hp. now apply elem_of_nil in Hp.
  - destruct (override_extends flag argument args store l Hl)
      as (mid & Hmid & Hpre & Hflag).
    destruct (IH _ _ Hmid) as [(l' & Hl' & Hpre' & Hall) Hother].
    split.
    + exists l'. split; [exact Hl' |].
      split; [now transitivity mid |].
      intros p Hp. apply elem_of_cons in Hp as [-> | Hp]; [| now apply Hall].
      simpl. destruct Hpre' as [tail ->]. apply elem_of_app. now left.
    + intros other Hne. unfold override_all in *. simpl.
      rewrite (Hother other Hne). now apply override_lookup_other.
Qed.

End ArgsMore.

(** ** Metric aggregation, continued *)
Section MetricsMore.

Import Metrics Expected.

Local Open Scope Z_scope.

Context `{RT : Runtime} {Run : Type}.

Lemma total_Permutation (zs zs' : list Z) :
  zs ≡ₚ zs' -> total zs = total zs'.
Proof.
  induction 1 as [|z zs zs' _ IH|y z zs|zs zs' zs'' _ IH1 _ IH2];
    rewrite ?total_cons; lia.
Qed.

Lemma total_map_zero {A : Type} (f : A -> Z) (xs : list A) :
  (forall x, x ∈ xs -> f x = 0) -> total (map f xs) = 0.
Proof.
  induction xs as [|x xs IH]; intros Hf; [reflexivity |].
  cbn [map]. rewrite total_cons, (Hf x) by (apply elem_of_cons; now left).
  rewrite IH; [reflexivity |].
  intros y Hy. apply Hf. apply elem_of_cons. now right.
Qed.

Lemma accuracy_counts (logits : Run -> Logits) (labels : Run -> Labels)
  (runs : list Run) :
  correct_count (run_all (fst (accuracy logits labels)) runs accuracy_vars)
    = wrap_int32 (total (map (fun r => hits (top1 logits labels r)) runs)) /\
  incorrect_count (run_all (fst (accuracy logits labels)) runs accuracy_vars)
    = wrap_int32
        (total (map (fun r => size (top1 logits labels r)
                              - hits (top1 logits labels r)) runs)).
Proof.
  destruct (accuracy_run_all logits labels runs accuracy_vars 0 0
              eq_refl eq_refl) as [Hc Hi].
  rewrite Z.add_0_l in Hc, Hi. split; assumption.
Qed.

Lemma accuracy_op_value (logits : Run -> Logits) (labels : Run -> Labels)
  (v : AccuracyVars) :
  snd (accuracy logits labels) v
  = f_div (f_of_int32 (correct_count v))
      (f_of_int32 (int32_add (correct_count v) (incorrect_count v))).
Proof. reflexivity. Qed.

(** X18. The aggregated accuracy does not depend on the order in which
    the batches were run: the two counters and the accuracy op are the
    same for any rearrangement of the runs, wrap-around included. *)
Theorem accuracy_order_irrelevant (logits : Run -> Logits)
  (labels : Run -> Labels) (runs runs' : list Run) :
  runs ≡ₚ runs' ->
  correct_count (run_all (fst (accuracy logits labels)) runs accuracy_vars)
  = correct_count
      (run_all (fst (accuracy logits labels)) runs' accuracy_vars) /\
  incorrect_count
    (run_all (fst (accuracy logits labels)) runs accuracy_vars)
  = incorrect_count
      (run_all (fst (accuracy logits labels)) runs' accuracy_vars) /\
  snd (accuracy logits labels)
    (run_all (fst (accuracy logits labels)) runs accuracy_vars)
  = snd (accuracy logits labels)
      (run_all (fst (accuracy logits labels)) runs' accuracy_vars).
Proof.
  intros Hp.
  destruct (accuracy_counts logits labels runs) as [Hc Hi].
  destruct (accuracy_counts logits labels runs') as [Hc' Hi'].
  assert (Ec : correct_count
                 (run_all (fst (accuracy logits labels)) runs accuracy_vars)
               = correct_count
                   (run_all (fst (accuracy logits labels)) runs'
                      accuracy_vars)).
  { rewrite Hc, Hc'. f_equal. apply total_Permutation.
    now apply Permutation_map. }
  assert (Ei : incorrect_count
                 (run_all (fst (accuracy logits labels)) runs accuracy_vars)
               = incorrect_count
                   (run_all (fst (accuracy logits labels)) runs'
                      accuracy_vars)).
  { rewrite Hi, Hi'. f_equal. apply total_Permutation.
    now apply Permutation_map. }
  split; [exact Ec |]. split; [exact Ei |].
  rewrite !accuracy_op_value. now rewrite Ec, Ei.
Qed.

(** X19. While fewer than 2^31 examples have been seen, neither counter is
    negative and together they count the examples seen: the accuracy op
    divides a number between 0 and the number of examples by that
    number. *)
Theorem accuracy_counts_bounded (logits : Run -> Logits)
  (labels : Run -> Labels) (runs : list Run) :
  total (map (fun r => size (top1 logits labels r)) runs) < 2 ^ 31 ->
  0 <= correct_count
         (run_all (fst (accuracy logits labels)) runs accuracy_vars) /\
  0 <= incorrect_count
         (run_all (fst (accuracy logits labels)) runs accuracy_vars) /\
  correct_count (run_all (fst (accuracy logits labels)) runs accuracy_vars)
  + incorrect_count
      (run_all (fst (accuracy logits labels)) runs accuracy_vars)
  = total (map (fun r => size (top1 logits labels r)) runs).
Proof.
  intros Hn.
  destruct (accuracy_counts logits labels runs) as [Hc Hi].
  pose proof (total_hits_bounds (top1 logits labels) runs) as Hb.
  pose proof (total_hits_misses (top1 logits labels) runs) as Hs.
  rewrite wrap_int32_small in Hc by lia.
  rewrite wrap_int32_small in Hi by lia.
  rewrite Hc, Hi. lia.
Qed.

(** X20. When no example has been aggregated, because nothing was run or
    every batch was empty, both counters are zero and the accuracy op
    divides zero by zero. *)
Theorem accuracy_without_examples (logits : Run -> Logits)
  (labels : Run -> Labels) (runs : list Run) :
  (forall r, r ∈ runs -> top1 logits labels r = []) ->
  correct_count
    (run_all (fst (accuracy logits labels)) runs accuracy_vars) = 0 /\
  incorrect_count
    (run_all (fst (accuracy logits labels)) runs accuracy_vars) = 0 /\
  snd (accuracy logits labels)
    (run_all (fst (accuracy logits labels)) runs accuracy_vars)
  = f_div (f_of_int32 0) (f_of_int32 0).
Proof.
  intros He.
  destruct (accuracy_counts logits labels runs) as [Hc Hi].
  rewrite total_map_zero in Hc by (intros r Hr; now rewrite (He r Hr)).
  rewrite total_map_zero in Hi by (intros r Hr; now rewrite (He r Hr)).
  change (wrap_int32 0) with 0 in Hc, Hi.
  split; [exact Hc |]. split; [exact Hi |].
  rewrite accuracy_op_value, Hc, Hi. reflexivity.
Qed.

End MetricsMore.

(** ** The further statements at concrete inputs *)
Section MoreInstances.

Import PyStr DataDir Pipeline Args Metrics Expected Fixture Observed.

Lemma latest_marker_trailing_space_witness :
  _get_latest_data_dir demo_env "/data" = Ok "/data/v1".
Proof.
  exact (latest_marker_trailing_space demo_env "/data" "v1"
           (String newline EmptyString) eq_refl eq_refl eq_refl eq_refl).
Defined.

Lemma latest_marker_rooted_witness :
  _get_latest_data_dir rooted_env "/data" = Ok "/mnt/v7" /\
  get_train_eval_files rooted_env "/data"
  = Ok (["/mnt/v7/train-0.tfrecord.gz"], ["/mnt/v7/eval-0.tfrecord.gz"]).
Proof.
  exact (latest_marker_rooted rooted_env "/data" (lines ["/mnt/v7"])
           ["/mnt/v7/train-0.tfrecord.gz"] ["/mnt/v7/eval-0.tfrecord.gz"]
           eq_refl eq_refl eq_refl eq_refl eq_refl).
Defined.

Lemma latest_marker_blank_witness :
  _get_latest_data_dir blank_env "/data" = Ok "/data/".
Proof.
  exact (latest_marker_blank blank_env "/data" (lines [""])
           eq_refl eq_refl eq_refl).
Defined.

Lemma latest_marker_unreadable_witness :
  _get_latest_data_dir unreadable_env "/data"
    = Raise (External "PermissionDeniedError") /\
  get_train_eval_files unreadable_env "/data"
    = Raise (External "PermissionDeniedError") /\
  get_labels unreadable_env "/data"
    = Raise (External "PermissionDeniedError").
Proof.
  exact (latest_marker_unreadable unreadable_env "/data"
           "PermissionDeniedError" eq_refl eq_refl).
Defined.

Lemma get_labels_never_empty_witness :
  exists first rest,
    get_labels blank_env "/data" = Ok (first :: rest) /\
    (all_space (lines [""; ""]) = true ->
     first = EmptyString /\ rest = []).
Proof.
  exact (get_labels_never_empty blank_env "/data" (lines [""])
           (lines [""; ""]) eq_refl eq_refl eq_refl).
Defined.

Lemma get_labels_round_trip_witness :
  exists labels,
    get_labels demo_env "/data" = Ok labels /\
    join newline labels = rstrip (lines ["daisy"; "rose"; "tulip"]) /\
    Forall (fun label => contains_char newline label = false) labels.
Proof.
  exact (get_labels_round_trip demo_env "/data" (lines ["v1"])
           (lines ["daisy"; "rose"; "tulip"]) eq_refl eq_refl eq_refl).
Defined.

Lemma get_labels_last_stripped_witness :
  exists labels final,
    get_labels demo_env "/data" = Ok labels /\
    last labels = Some final /\
    rstrip final = final /\
    (final = EmptyString -> labels = [EmptyString]).
Proof.
  exact (get_labels_last_stripped demo_env "/data" (lines ["v1"])
           (lines ["daisy"; "rose"; "tulip"]) eq_refl eq_refl eq_refl).
Defined.

Lemma read_examples_capacity_floor_witness :
  exists capacity : Z,
    read_examples recording_tf demo_env demo_input_files 32 true None
    = call (Pipeline.shuffle_batch recording_tf (demo_examples None true)
              32 capacity 1000 true 4) /\
    (1000 + 4 * 32 <= capacity)%Z.
Proof.
  apply (read_examples_capacity_floor recording_tf demo_env
           demo_input_files demo_matched 32 4 true None
           (demo_queue None true)
           (demo_example None true 0) (demo_example None true 1));
    [reflexivity | reflexivity | reflexivity | reflexivity | lia | lia].
Defined.

Lemma read_examples_epochs_kept_witness :
  read_examples recording_tf demo_env demo_input_files 32 true (Some 5%Z)
  = Ok [ShuffleBatch (demo_examples (Some 5%Z) true) 32 1224 1000 true 4 0;
        ShuffleBatch (demo_examples (Some 5%Z) true) 32 1224 1000 true 4 1].
Proof.
  apply (read_examples_epochs_kept recording_tf demo_env demo_input_files
           demo_matched 32 4 5 true (demo_queue (Some 5%Z) true)
           (demo_example (Some 5%Z) true 0)
           (demo_example (Some 5%Z) true 1));
    [reflexivity | reflexivity | lia | reflexivity | reflexivity].
Defined.

Lemma override_if_not_in_args_idempotent_witness :
  (exists l',
     override_if_not_in_args "--batch_size" "64" 1%positive demo_store
       !! 1%positive = Some l' /\
     "--batch_size" ∈ l') /\
  override_if_not_in_args "--batch_size" "128" 1%positive
    (override_if_not_in_args "--batch_size" "64" 1%positive demo_store)
  = override_if_not_in_args "--batch_size" "64" 1%positive demo_store.
Proof.
  exact (override_if_not_in_args_idempotent "--batch_size" "64" "128"
           1%positive demo_store ["--max_steps"; "2000"] eq_refl).
Defined.

Lemma override_if_not_in_args_commute_witness :
  override_if_not_in_args "--batch_size" "64" 1%positive
    (override_if_not_in_args "--job_name" "eval" 2%positive demo_store)
  = override_if_not_in_args "--job_name" "eval" 2%positive
      (override_if_not_in_args "--batch_size" "64" 1%positive demo_store).
Proof.
  apply (override_if_not_in_args_commute "--batch_size" "64"
           "--job_name" "eval" 1%positive 2%positive demo_store).
  lia.
Defined.

Lemma override_all_flags_present_witness :
  (exists l',
     override_all demo_pairs 1%positive demo_store !! 1%positive = Some l' /\
     ["--max_steps"; "2000"] `prefix_of` l' /\
     forall p, p ∈ demo_pairs -> p.1 ∈ l') /\
  (forall other : positive, other <> 1%positive ->
     override_all demo_pairs 1%positive demo_store !! other
     = demo_store !! other).
Proof.
  exact (override_all_flags_present demo_pairs 1%positive demo_store
           ["--max_steps"; "2000"] eq_refl).
Defined.

Lemma accuracy_order_irrelevant_witness :
  correct_count
    (run_all (fst (accuracy fst snd)) demo_batches accuracy_vars)
  = correct_count
      (run_all (fst (accuracy fst snd)) (rev demo_batches) accuracy_vars) /\
  incorrect_count
    (run_all (fst (accuracy fst snd)) demo_batches accuracy_vars)
  = incorrect_count
      (run_all (fst (accuracy fst snd)) (rev demo_batches) accuracy_vars) /\
  snd (accuracy fst snd)
    (run_all (fst (accuracy fst snd)) demo_batches accuracy_vars)
  = snd (accuracy fst snd)
      (run_all (fst (accuracy fst snd)) (rev demo_batches) accuracy_vars).
Proof.
  apply (accuracy_order_irrelevant (RT := exact_runtime) fst snd
           demo_batches (rev demo_batches)).
  apply perm_swap.
Defined.

Lemma accuracy_counts_bounded_witness :
  (0 <= correct_count
          (run_all (fst (accuracy fst snd)) demo_batches accuracy_vars))%Z /\
  (0 <= incorrect_count
          (run_all (fst (accuracy fst snd)) demo_batches accuracy_vars))%Z /\
  (correct_count
     (run_all (fst (accuracy fst snd)) demo_batches accuracy_vars)
   + incorrect_count
       (run_all (fst (accuracy fst snd)) demo_batches accuracy_vars))%Z
  = 3%Z.
Proof.
  exact (accuracy_counts_bounded (RT := exact_runtime) fst snd demo_batches
           eq_refl).
Defined.

Lemma accuracy_without_examples_witness :
  correct_count
    (run_all (fst (accuracy fst snd)) empty_batches accuracy_vars) = 0%Z /\
  incorrect_count
    (run_all (fst (accuracy fst snd)) empty_batches accuracy_vars) = 0%Z /\
  snd (accuracy fst snd)
    (run_all (fst (accuracy fst snd)) empty_batches accuracy_vars)
  = Qdiv (inject_Z 0) (inject_Z 0).
Proof.
  apply (accuracy_without_examples (RT := exact_runtime) fst snd
           empty_batches).
  intros r Hr.
  apply elem_of_cons in Hr as [-> | Hr]; [reflexivity |].
  apply elem_of_cons in Hr as [-> | Hr]; [reflexivity |].
  now apply elem_of_nil in Hr.
Defined.

End MoreInstances.
